(** * Virtual chemistry lab: reaction lookup, drag-and-drop registry,
      container volumes and the liquid particle simulator.

    Shallow embedding of
    - [src/data/reactionLogic.ts]            (module [ReactionLogic]),
    - [src/components/lab/Beaker.tsx]        (module [Beaker]),
    - [src/interactions/DragDropManager.tsx] (module [DragDrop]),
    - [src/physics/LiquidSystem.tsx]         (module [LiquidSystem]).

    Conventions of the embedding.
    - A JavaScript [number] is either [NaN] or a rational; the two
      infinities are not modelled.  Comparisons, [Math.max],
      [Math.min] and [Math.floor] are exact.  The results of [+], [-],
      [*], [/] and the values of decimal literals are those of an
      arithmetic, class [Arith]: the simulator takes it from its host,
      so that what is proved of it for every host holds whatever the
      rounding; the other modules, and the statements that need the
      order properties of the operations, use the arithmetic that does
      not round.
    - The object literal that serves as the reaction table is the
      [gmap] of the assignments made to it, read through its prototype
      chain; a JavaScript [Map], whose iteration order is observable,
      is an association list in insertion order.
    - React state is passed explicitly; a [setState(prev => ...)] updater
      is a function on the previous state, and where the order in which
      React applies two updaters is not fixed by the code, it is a
      field of the host.  An effect is a function on the state.
      [console.log] and toast notifications are not modelled.
    - A handler that throws leaves the state it has reached and a
      completion that names the error.
    - Functions of three.js and of the host ([Math.random], [Math.sqrt]
      behind [distanceTo] and [normalize], [Math.cos], [Math.sin], ray
      casting) live outside the repository: each module takes them as
      the fields of a [Host] class.

    The first part of the file holds the definitions, the second part
    the theorems. *)

From Stdlib Require Import Ascii String QArith Qabs Qcanon Qround Lqa.
From stdpp Require Import base numbers strings gmap list pretty.

(** ** JavaScript numbers *)

Inductive number : Type :=
| NaN : number
| Num (q : Qc) : number.

#[global] Instance number_eq_dec : EqDecision number.
Proof. solve_decision. Defined.

(** The arithmetic of the host.  JavaScript numbers are binary64
    values: a decimal literal and the result of an operation are
    rounded.  What rounding gives is left to the fields of the class;
    [exactArith] below is the arithmetic that does not round. *)
Class Arith : Type := {
  (** the decimal literal [n/d], e.g. [decimal 8 10] for [0.8] *)
  decimal : Z → positive → number;
  js_add : number → number → number;
  js_sub : number → number → number;
  js_mul : number → number → number;
  (** division; a zero divisor gives [NaN] in [exactArith] (JavaScript
      gives an infinity unless the dividend is zero too) *)
  js_div : number → number → number;
}.

(** The literal [n/d], e.g. [lit 8 10] for [0.8]: an integer literal
    is the integer itself, another literal is what the arithmetic of
    the host makes of it. *)
Definition lit `{Arith} (n : Z) (d : positive) : number :=
  match d with
  | 1%positive => Num (Q2Qc (n # 1))
  | _ => decimal n d
  end.

(** A length or a loop index as a number. *)
Definition ofNat (n : nat) : number := Num (Q2Qc (inject_Z (Z.of_nat n))).

Definition isNaN (a : number) : bool :=
  match a with NaN => true | Num _ => false end.

(** Arithmetic on the rationals, without rounding.  It is the
    arithmetic of every definition and statement that names no other
    one. *)
#[global] Instance exactArith : Arith | 100 := {|
  decimal := fun n d => Num (Q2Qc (n # d));
  js_add := fun a b =>
    match a, b with Num p, Num q => Num (p + q)%Qc | _, _ => NaN end;
  js_sub := fun a b =>
    match a, b with Num p, Num q => Num (p - q)%Qc | _, _ => NaN end;
  js_mul := fun a b =>
    match a, b with Num p, Num q => Num (p * q)%Qc | _, _ => NaN end;
  js_div := fun a b =>
    match a, b with
    | Num p, Num q => if decide (q = Q2Qc 0) then NaN else Num (p / q)%Qc
    | _, _ => NaN
    end;
|}.

(** The nearest integer, a tie going to the even one. *)
Definition roundHalfEven (q : Q) : Z :=
  let f := Qfloor q in
  match (q - inject_Z f ?= 1 # 2)%Q with
  | Lt => f
  | Gt => (f + 1)%Z
  | Eq => if Z.even f then f else (f + 1)%Z
  end.

(** Rounding to the nearest number with a significand of 53 bits, a
    tie going to the even significand: the rounding of binary64 in the
    range of its normal numbers.  [e] is the exponent of [q], the
    largest one with [2^e <= |q|]. *)
Definition round64 (q : Q) : Q :=
  match Qnum q with
  | Z0 => 0
  | _ =>
      let a := Qabs q in
      let e0 := (Z.log2 (Qnum a) - Z.log2 (Zpos (Qden a)))%Z in
      let e := if Qle_bool (Qpower 2 e0) a then e0 else (e0 - 1)%Z in
      let m := roundHalfEven (a * Qpower 2 (52 - e)) in
      let r := (inject_Z m * Qpower 2 (e - 52))%Q in
      if Qle_bool 0 q then r else (- r)%Q
  end.

(** The arithmetic of binary64 within the range of the normal numbers:
    every literal and every result is rounded.  Overflow and the
    subnormal numbers are not modelled. *)
Definition binary64Arith : Arith := {|
  decimal := fun n d => Num (Q2Qc (round64 (n # d)));
  js_add := fun a b =>
    match a, b with
    | Num p, Num q => Num (Q2Qc (round64 (p + q)%Qc))
    | _, _ => NaN
    end;
  js_sub := fun a b =>
    match a, b with
    | Num p, Num q => Num (Q2Qc (round64 (p - q)%Qc))
    | _, _ => NaN
    end;
  js_mul := fun a b =>
    match a, b with
    | Num p, Num q => Num (Q2Qc (round64 (p * q)%Qc))
    | _, _ => NaN
    end;
  js_div := fun a b =>
    match a, b with
    | Num p, Num q =>
        if decide (q = Q2Qc 0) then NaN else Num (Q2Qc (round64 (p / q)%Qc))
    | _, _ => NaN
    end;
|}.

(** [-a] *)
Definition js_neg (a : number) : number :=
  match a with Num p => Num (- p)%Qc | NaN => NaN end.

(** [a < b], [a > b], [a <= b], [a >= b]: false as soon as an operand
    is [NaN]. *)
Definition js_lt (a b : number) : bool :=
  match a, b with Num p, Num q => bool_decide (p < q)%Qc | _, _ => false end.

Definition js_gt (a b : number) : bool := js_lt b a.

Definition js_le (a b : number) : bool :=
  match a, b with Num p, Num q => bool_decide (p <= q)%Qc | _, _ => false end.

Definition js_ge (a b : number) : bool := js_le b a.

(** [Math.max(a, b)] and [Math.min(a, b)]: [NaN] if an argument is. *)
Definition Math_max (a b : number) : number :=
  match a, b with
  | Num p, Num q => if bool_decide (p < q)%Qc then b else a
  | _, _ => NaN
  end.

Definition Math_min (a b : number) : number :=
  match a, b with
  | Num p, Num q => if bool_decide (q < p)%Qc then b else a
  | _, _ => NaN
  end.

Definition Math_floor (a : number) : number :=
  match a with
  | Num p => Num (Q2Qc (inject_Z (Qfloor p)))
  | NaN => NaN
  end.

(** Number of iterations of [for (let i = 0; i < n; i++)]. *)
Definition loopCount (n : number) : nat :=
  match n with
  | Num p => Z.to_nat (Qceiling p)
  | NaN => 0
  end.

Declare Scope js_scope.
Delimit Scope js_scope with js.
Bind Scope js_scope with number.
Infix "+" := js_add : js_scope.
Infix "-" := js_sub : js_scope.
Infix "*" := js_mul : js_scope.
Infix "/" := js_div : js_scope.
Infix "<?" := js_lt : js_scope.
Infix ">?" := js_gt (at level 70) : js_scope.
Infix "<=?" := js_le : js_scope.
Infix ">=?" := js_ge (at level 70) : js_scope.

(** Order on numbers as a proposition: it holds of no [NaN]. *)
Definition num_le (a b : number) : Prop := js_le a b = true.
Definition num_lt (a b : number) : Prop := js_lt a b = true.
Infix "<=" := num_le : js_scope.
Infix "<" := num_lt : js_scope.

(** [Math.round(a)]: the nearest integer, a half rounded up. *)
Definition Math_round (a : number) : number :=
  match a with
  | Num p => Num (Q2Qc (inject_Z (Qfloor (p + Q2Qc (1 # 2))%Qc)))
  | NaN => NaN
  end.

(** ** three.js [Vector3] *)

Record Vector3 : Type := mkVector3 { x : number; y : number; z : number }.

#[global] Instance Vector3_eq_dec : EqDecision Vector3.
Proof. solve_decision. Defined.

Module Vec.

(** [new Vector3()] *)
Definition zero : Vector3 := mkVector3 (lit 0 1) (lit 0 1) (lit 0 1).

(** [a.add(b)] *)
Definition add `{Arith} (a b : Vector3) : Vector3 :=
  mkVector3 (x a + x b)%js (y a + y b)%js (z a + z b)%js.

(** [new Vector3().subVectors(a, b)] *)
Definition subVectors `{Arith} (a b : Vector3) : Vector3 :=
  mkVector3 (x a - x b)%js (y a - y b)%js (z a - z b)%js.

(** [a.multiplyScalar(s)] *)
Definition multiplyScalar `{Arith} (a : Vector3) (s : number) : Vector3 :=
  mkVector3 (x a * s)%js (y a * s)%js (z a * s)%js.

(** [a.dot(b)] *)
Definition dot `{Arith} (a b : Vector3) : number :=
  (x a * x b + y a * y b + z a * z b)%js.

(** [new Vector3().lerpVectors(a, b, alpha)] *)
Definition lerpVectors `{Arith} (a b : Vector3) (alpha : number) : Vector3 :=
  mkVector3 (x a + (x b - x a) * alpha)%js
            (y a + (y b - y a) * alpha)%js
            (z a + (z b - z a) * alpha)%js.

(** [v.y = n] *)
Definition set_y (v : Vector3) (n : number) : Vector3 := mkVector3 (x v) n (z v).

End Vec.

(** ** [String.prototype.toLowerCase]

    Strings are byte strings and only the letters [A]..[Z] change.  On
    the comparisons made below this agrees with the Unicode operation:
    a string with a character outside ASCII never lower-cases to one of
    the three ASCII category names. *)

Definition lower_ascii (c : ascii) : ascii :=
  let n := nat_of_ascii c in
  if (65 <=? n)%nat && (n <=? 90)%nat then ascii_of_nat (n + 32) else c.

Fixpoint toLowerCase (s : string) : string :=
  match s with
  | EmptyString => EmptyString
  | String c s' => String (lower_ascii c) (toLowerCase s')
  end.

(** ** [src/data/reactionLogic.ts] *)

Module ReactionLogic.

(** The [Experiment] rows of the catalog.  The type is declared in
    [@/types/experiment]; the fields are those of the [Experiment]
    interface of the pages that load the rows. *)
Record Experiment : Type := mkExperiment {
  id : string;
  title : string;
  description : string;
  difficulty : string;
  duration : string;
  category : string;
  thumbnail_url : option string;
}.

Record ReactionEffect : Type := mkReactionEffect {
  type : string;
  intensity : number;
}.

Record ReactionResult : Type := mkReactionResult {
  outcomeText : string;
  effects : list ReactionEffect;
}.

(** The [switch (exp.category.toLowerCase())] of
    [generateReactionLogic]: the value assigned to [reactions[key]]. *)
Definition reactionOf (cat : string) : ReactionResult :=
  let c := toLowerCase cat in
  if decide (c = "acid-base") then
    mkReactionResult "Neutralization reaction occurred"
      [mkReactionEffect "color-change" (lit 8 10)]
  else if decide (c = "precipitation") then
    mkReactionResult "Precipitation reaction occurred"
      [mkReactionEffect "precipitation" (lit 9 10)]
  else if decide (c = "combustion") then
    mkReactionResult "Combustion reaction occurred"
      [mkReactionEffect "heat-release" (lit 1 1)]
  else
    mkReactionResult "Reaction occurred"
      [mkReactionEffect "color-change" (lit 7 10)].

(** [experiments.forEach(exp => { reactions[exp.id] = ... })]

    The table [reactions] starts as the object literal [{}].  The
    finite map holds the values that were assigned to it, under the
    keys they were assigned to.  An assignment under the key
    ["__proto__"] makes no property of the table: it makes the value
    the prototype of the table, and reading ["__proto__"] gives the
    prototype; so a read at a key that was assigned gives the value
    assigned last, whatever the key. *)
Definition generateReactionLogic (experiments : list Experiment)
  : gmap string ReactionResult :=
  foldl (fun reactions exp => <[id exp := reactionOf (category exp)]> reactions)
        ∅ experiments.

(** *** Reading the table

    What was not assigned is looked up along the prototype chain of the
    table: in the result that was assigned under ["__proto__"], if
    there is one, and then in [Object.prototype]. *)

(** What a read [reactionLogic[key]] can give. *)
Inductive JSValue : Type :=
| Undefined
| Result (r : ReactionResult)
| Text (s : string)
| Effects (l : list ReactionEffect)
| Builtin (name : string)
| ObjectPrototype.

(** The methods of [Object.prototype]. *)
Definition Object_prototype : list string :=
  ["constructor"; "hasOwnProperty"; "isPrototypeOf"; "propertyIsEnumerable";
   "toLocaleString"; "toString"; "valueOf"; "__defineGetter__";
   "__defineSetter__"; "__lookupGetter__"; "__lookupSetter__"].

(** A read in [Object.prototype]. *)
Definition inherited (key : string) : JSValue :=
  if bool_decide (key ∈ Object_prototype) then Builtin key else Undefined.

(** [reactionLogic[key]] *)
Definition get (reactionLogic : gmap string ReactionResult) (key : string)
  : JSValue :=
  match reactionLogic !! key with
  | Some r => Result r
  | None =>
      if decide (key = "__proto__") then ObjectPrototype
      else
        match reactionLogic !! "__proto__" with
        | Some proto =>
            if decide (key = "outcomeText") then Text (outcomeText proto)
            else if decide (key = "effects") then Effects (effects proto)
            else inherited key
        | None => inherited key
        end
  end.

(** The value counts as true in a test: of the values above, all but
    [undefined] and the empty string. *)
Definition truthy (v : JSValue) : bool :=
  match v with
  | Undefined => false
  | Text s => negb (bool_decide (s = ""))
  | _ => true
  end.

(** [checkReactionTrigger]; [None] is [null]. *)
Definition checkReactionTrigger (chemicalIds : list string)
    (reactionLogic : gmap string ReactionResult) (experimentId : string)
  : option JSValue :=
  if (2 <=? length chemicalIds)%nat && truthy (get reactionLogic experimentId)
  then Some (get reactionLogic experimentId)
  else None.

(** The trigger check as the specification words it: the stored result
    exactly when at least two chemicals are combined and the table
    holds a result for the id, and nothing in every other case. *)
Definition triggersOnStoredOnly (chemicalIds : list string)
    (reactionLogic : gmap string ReactionResult) (experimentId : string) : Prop :=
  (∀ r, checkReactionTrigger chemicalIds reactionLogic experimentId
        = Some (Result r)
        ↔ 2 ≤ length chemicalIds ∧ reactionLogic !! experimentId = Some r) ∧
  (checkReactionTrigger chemicalIds reactionLogic experimentId = None
   ↔ length chemicalIds < 2 ∨ reactionLogic !! experimentId = None).

(** The table of the specification: [r] is the documented result for
    the category [cat]. *)
Definition documented (cat : string) (r : ReactionResult) : Prop :=
  let c := toLowerCase cat in
  (c = "acid-base" ∧
     outcomeText r = "Neutralization reaction occurred" ∧
     effects r = [mkReactionEffect "color-change" (lit 8 10)]) ∨
  (c = "precipitation" ∧
     outcomeText r = "Precipitation reaction occurred" ∧
     effects r = [mkReactionEffect "precipitation" (lit 9 10)]) ∨
  (c = "combustion" ∧
     outcomeText r = "Combustion reaction occurred" ∧
     effects r = [mkReactionEffect "heat-release" (lit 1 1)]) ∨
  (c ≠ "acid-base" ∧ c ≠ "precipitation" ∧ c ≠ "combustion" ∧
     outcomeText r = "Reaction occurred" ∧
     effects r = [mkReactionEffect "color-change" (lit 7 10)]).

(** The lookup property as the specification words it: every experiment
    of the list finds, under its id, the result of its own category. *)
Definition maps_each_to_own_category (experiments : list Experiment) : Prop :=
  ∀ exp, exp ∈ experiments →
    ∃ r, generateReactionLogic experiments !! id exp = Some r ∧
         documented (category exp) r.

(** An experiment with the given id and category. *)
Definition sample (i c : string) : Experiment :=
  mkExperiment i "" "" "" "" c None.

End ReactionLogic.

(** ** [src/components/lab/Beaker.tsx]: the volume of a container *)

Module Beaker.

(** The [useState] cells of the component: [isPouring], [currentVolume]. *)
Record State : Type := mkState {
  isPouring : bool;
  currentVolume : number;
}.

(** [handlePourStart]; the [onPourStart] callback of the parent is not
    modelled. *)
Definition handlePourStart (st : State) : State :=
  if (currentVolume st >? lit 0 1)%js && negb (isPouring st)
  then mkState true (currentVolume st)
  else st.

(** [handlePourEnd]; the [onPourEnd] callback of the parent is not
    modelled. *)
Definition handlePourEnd (pouredVolume : number) (st : State) : State :=
  let newVolume := Math_max (lit 0 1) (currentVolume st - pouredVolume)%js in
  mkState false newVolume.

(** The state after a sequence of pour-end events. *)
Definition pourEnds (poured : list number) (st : State) : State :=
  foldl (fun s p => handlePourEnd p s) st poured.

(** [clamp(value, min, max)] of the specification, as three.js's
    [MathUtils.clamp] computes it. *)
Definition clamp (value lo hi : number) : number :=
  Math_max lo (Math_min hi value).

(** [normalizedFillLevel]: the legacy prop [fillLevel] when it is
    given, else the current volume over the capacity. *)
Definition normalizedFillLevel (fillLevel : option number) (maxVolume : number)
    (st : State) : number :=
  match fillLevel with
  | Some f => f
  | None => (currentVolume st / maxVolume)%js
  end.

(** The [fillPercentage] that [handleClick] shows. *)
Definition fillPercentage (fillLevel : option number) (maxVolume : number)
    (st : State) : number :=
  Math_round (normalizedFillLevel fillLevel maxVolume st * lit 100 1)%js.

(** [const pourRate = 2] *)
Definition pourRate : number := lit 2 1.

(** The pour simulation of [useFrame]; [mounted] says that
    [beakerRef.current] is set and [r] is what [Math.random()] returns
    when it is called. *)
Definition useFrame_pour (mounted : bool) (r : number) (st : State) : State :=
  if mounted && isPouring st && (currentVolume st >? lit 0 1)%js then
    if (r <? lit 3 10)%js then handlePourEnd pourRate st else st
  else st.

(** What happens to a mounted beaker: a double click, or a frame in
    which [Math.random()] would return [r]. *)
Inductive Event : Type :=
| DoubleClick
| Frame (r : number).

Definition step (st : State) (e : Event) : State :=
  match e with
  | DoubleClick => handlePourStart st
  | Frame r => useFrame_pour true r st
  end.

Definition run (events : list Event) (st : State) : State :=
  foldl step st events.

#[global] Instance State_eq_dec : EqDecision State.
Proof. solve_decision. Defined.

(** The volume that a pour-end event of [pourRate] leaves of [v]. *)
Definition afterPour (v : number) : number :=
  Math_max (lit 0 1) (v - pourRate)%js.

(** The number of double clicks among the events. *)
Definition doubleClicks (events : list Event) : nat :=
  length (List.filter (fun e => match e with DoubleClick => true | Frame _ => false end)
                      events).

End Beaker.

(** ** [src/components/lab/Bottle.tsx]: the [Bottle] component *)

Module Bottle.

(** The [useState] cells [isPouring], [isCapOpen], [currentVolume]. *)
Record State : Type := mkState {
  isPouring : bool;
  isCapOpen : bool;
  currentVolume : number;
}.

(** [handleCapClick] *)
Definition handleCapClick (st : State) : State :=
  mkState (isPouring st) (negb (isCapOpen st)) (currentVolume st).

(** [handlePourStart]; the callback of the parent and the toast are
    not modelled. *)
Definition handlePourStart (st : State) : State :=
  if (currentVolume st >? lit 0 1)%js && negb (isPouring st) && isCapOpen st
  then mkState true (isCapOpen st) (currentVolume st)
  else st.

(** [handlePourEnd] *)
Definition handlePourEnd (pouredVolume : number) (st : State) : State :=
  let newVolume := Math_max (lit 0 1) (currentVolume st - pouredVolume)%js in
  mkState false (isCapOpen st) newVolume.

(** [const pourRate = 1] *)
Definition pourRate : number := lit 1 1.

(** The pour simulation of [useFrame]; [r] is what [Math.random()]
    returns when it is called. *)
Definition useFrame_pour (r : number) (st : State) : State :=
  if isPouring st && (currentVolume st >? lit 0 1)%js && isCapOpen st then
    if (r <? lit 3 10)%js then handlePourEnd pourRate st else st
  else st.

Inductive Event : Type :=
| CapClick
| DoubleClick
| Frame (r : number).

Definition step (st : State) (e : Event) : State :=
  match e with
  | CapClick => handleCapClick st
  | DoubleClick => handlePourStart st
  | Frame r => useFrame_pour r st
  end.

Definition run (events : list Event) (st : State) : State :=
  foldl step st events.

End Bottle.

(** ** three.js [Ray] and [Plane]

    The library's ray/plane intersection, after [Ray.js] and [Plane.js]
    of three.js.  [None] stands for the [null] that [distanceToPlane]
    returns when the ray does not meet the plane. *)

Module Three.

Record Ray : Type := mkRay { origin : Vector3; direction : Vector3 }.

Record Plane : Type := mkPlane { normal : Vector3; constant : number }.

(** [plane.setFromNormalAndCoplanarPoint(normal, point)] *)
Definition setFromNormalAndCoplanarPoint (n point : Vector3) : Plane :=
  mkPlane n (js_neg (Vec.dot point n)).

(** [plane.distanceToPoint(point)] *)
Definition distanceToPoint (p : Plane) (point : Vector3) : number :=
  (Vec.dot (normal p) point + constant p)%js.

(** [ray.distanceToPlane(plane)] *)
Definition distanceToPlane (r : Ray) (p : Plane) : option number :=
  let denominator := Vec.dot (normal p) (direction r) in
  if decide (denominator = lit 0 1) then
    if decide (distanceToPoint p (origin r) = lit 0 1) then Some (lit 0 1)
    else None
  else
    let t := (js_neg (Vec.dot (origin r) (normal p) + constant p) / denominator)%js in
    if (t >=? lit 0 1)%js then Some t else None.

(** [ray.at(t, target)] *)
Definition at_ (r : Ray) (t : number) : Vector3 :=
  Vec.add (origin r) (Vec.multiplyScalar (direction r) t).

(** [ray.intersectPlane(plane, target)]: the value of [target] after
    the call.  Without an intersection the call returns [null] and
    leaves [target] as it was. *)
Definition intersectPlane (r : Ray) (p : Plane) (target : Vector3) : Vector3 :=
  match distanceToPlane r p with
  | None => target
  | Some t => at_ r t
  end.

End Three.

(** ** [src/interactions/DragDropManager.tsx] *)

Module DragDrop.

(** The identity of a three.js [Object3D]. *)
Definition ObjRef : Type := nat.

(** The part of an [Object3D] that the manager reads and writes. *)
Record Object3D : Type := mkObject3D {
  position : Vector3;
  children : list ObjRef;
}.

Inductive DragType : Type := equipment | chemical | tool.

(** [constraints?: { minY?, maxY?, minX?, maxX?, minZ?, maxZ? }];
    [None] is [undefined]. *)
Record Constraints : Type := mkConstraints {
  minY : option number;
  maxY : option number;
  minX : option number;
  maxX : option number;
  minZ : option number;
  maxZ : option number;
}.

Record DragObject : Type := mkDragObject {
  id : string;
  object : ObjRef;
  type : DragType;
  initialPosition : Vector3;
  isDraggable : bool;
  constraints : option Constraints;
}.

#[global] Instance DragType_eq_dec : EqDecision DragType.
Proof. solve_decision. Defined.
#[global] Instance Constraints_eq_dec : EqDecision Constraints.
Proof. solve_decision. Defined.
#[global] Instance DragObject_eq_dec : EqDecision DragObject.
Proof. solve_decision. Defined.

Record DOMRect : Type := mkDOMRect {
  left : number;
  top : number;
  width : number;
  height : number;
}.

(** What the provider takes from three.js and the DOM: the canvas
    rectangle, the camera and the ray caster. *)
Class Host : Type := {
  Ray : Type;
  Plane : Type;
  (** [gl.domElement.getBoundingClientRect()] *)
  getBoundingClientRect : DOMRect;
  (** [raycaster.setFromCamera(mouse, camera)], then [raycaster.ray] *)
  setFromCamera : Vector3 → Ray;
  (** [raycaster.intersectObjects(objects, true)]: the [object] of each
      intersection, nearest first *)
  intersectObjects : Ray → gmap ObjRef Object3D → list ObjRef → list ObjRef;
  (** [v.applyQuaternion(camera.quaternion)] *)
  applyCameraQuaternion : Vector3 → Vector3;
  (** [new Vector3().setFromNormalAndCoplanarPoint(normal, point)]: the
      method that a [Vector3] has under this name, if it has one.
      three.js declares [setFromNormalAndCoplanarPoint] on [Plane]
      only, and the call of a method that an object does not have
      throws a [TypeError]. *)
  Vector3_setFromNormalAndCoplanarPoint : option (Vector3 → Vector3 → Plane);
  (** [ray.intersectPlane(plane, target)]: [target] after the call *)
  intersectPlane : Ray → Plane → Vector3 → Vector3;
}.

(** How the call of a handler ends: it returns, or it throws the named
    error. *)
Inductive Completion : Type :=
| Returns
| Throws (error : string).

(** The provider's state: the scene graph it writes to, its [useState]
    cells and the cursor style of the canvas. *)
Record State : Type := mkState {
  scene : gmap ObjRef Object3D;
  registeredObjects : list (string * DragObject);
  draggedObject : option DragObject;
  hoveredObject : option DragObject;
  isDragging : bool;
  cursor : string;
}.

(** [const [dragPlaneY] = useState(1)] *)
Definition dragPlaneY : number := lit 1 1.

(** *** The JavaScript [Map] *)

(** [m.set(k, v)]: an existing key keeps its place. *)
Definition Map_set {V} (k : string) (v : V) (m : list (string * V))
  : list (string * V) :=
  if bool_decide (k ∈ m.*1)
  then (fun kv : string * V => if decide (kv.1 = k) then (k, v) else kv) <$> m
  else m ++ [(k, v)].

(** [m.delete(k)] *)
Definition Map_delete {V} (k : string) (m : list (string * V))
  : list (string * V) :=
  filter (fun kv => kv.1 ≠ k) m.

(** [Array.from(m.values())] *)
Definition Map_values {V} (m : list (string * V)) : list V := m.*2.

Definition set_registeredObjects
    (f : list (string * DragObject) → list (string * DragObject))
    (st : State) : State :=
  mkState (scene st) (f (registeredObjects st)) (draggedObject st)
          (hoveredObject st) (isDragging st) (cursor st).

Definition set_scene (f : gmap ObjRef Object3D → gmap ObjRef Object3D)
    (st : State) : State :=
  mkState (f (scene st)) (registeredObjects st) (draggedObject st)
          (hoveredObject st) (isDragging st) (cursor st).

(** [setRegisteredObjects(prev => new Map(prev.set(object.id, object)))] *)
Definition registerObject (obj : DragObject) (st : State) : State :=
  set_registeredObjects (Map_set (id obj) obj) st.

(** [setRegisteredObjects(prev => { const newMap = new Map(prev);
    newMap.delete(id); return newMap })] *)
Definition unregisterObject (i : string) (st : State) : State :=
  set_registeredObjects (Map_delete i) st.

(** The pointer in normalized device coordinates ([mouse.current]; its
    [z] is never written and stays [0]). *)
Definition pointer `{Host} (clientX clientY : number) : Vector3 :=
  let rect := getBoundingClientRect in
  mkVector3 (((clientX - left rect) / width rect) * lit 2 1 - lit 1 1)%js
            (js_neg ((clientY - top rect) / height rect) * lit 2 1 + lit 1 1)%js
            (lit 0 1).

(** The objects the ray is cast against: [Array.from(
    registeredObjects.values()).map(obj => obj.object)]. *)
Definition castTargets (st : State) : list ObjRef :=
  object <$> Map_values (registeredObjects st).

Definition getIntersection `{Host} (clientX clientY : number) (st : State)
  : list ObjRef :=
  let ray := setFromCamera (pointer clientX clientY) in
  intersectObjects ray (scene st) (castTargets st).

(** [obj.object === hit || obj.object.children.includes(hit)] *)
Definition owns (st : State) (hit : ObjRef) (obj : DragObject) : bool :=
  bool_decide (object obj = hit)
  || match scene st !! object obj with
     | Some o => bool_decide (hit ∈ children o)
     | None => false
     end.

(** The handle that a pointer at [(clientX, clientY)] resolves to: the
    first registered handle that owns the nearest hit.  This is the
    lookup of the hover branch of [handleMouseMove]; the loop of
    [handleMouseDown] finds the same handle. *)
Definition resolvePointer `{Host} (clientX clientY : number) (st : State)
  : option DragObject :=
  match getIntersection clientX clientY st with
  | hit :: _ => List.find (owns st hit) (Map_values (registeredObjects st))
  | [] => None
  end.

(** One axis of the clamping of [endDrag]:
    [if (min !== undefined) p = Math.max(min, p);
     if (max !== undefined) p = Math.min(max, p)]. *)
Definition clampAxis (lo hi : option number) (p : number) : number :=
  let p1 := match lo with Some m => Math_max m p | None => p end in
  match hi with Some m => Math_min m p1 | None => p1 end.

Definition clampPosition (c : Constraints) (pos : Vector3) : Vector3 :=
  mkVector3 (clampAxis (minX c) (maxX c) (x pos))
            (clampAxis (minY c) (maxY c) (y pos))
            (clampAxis (minZ c) (maxZ c) (z pos)).

(** [obj.position] gets the value [f(obj.position)]. *)
Definition updatePosition (f : Vector3 → Vector3) (o : Object3D) : Object3D :=
  mkObject3D (f (position o)) (children o).

Definition endDrag (st : State) : State :=
  let scene' :=
    match draggedObject st with
    | Some d =>
        match constraints d with
        | Some c => alter (updatePosition (clampPosition c)) (object d) (scene st)
        | None => scene st
        end
    | None => scene st
    end in
  mkState scene' (registeredObjects st) None (hoveredObject st) false (cursor st).

(** The vector [intersection] of [handleMouseMove] after the call of
    [raycaster.current.ray.intersectPlane]: it is created as
    [new Vector3()] and handed to the call as its target.  The plane
    argument is evaluated before the call: [None] when its evaluation
    throws, for want of the method. *)
Definition dragIntersection `{Host} (clientX clientY : number) : option Vector3 :=
  let ray := setFromCamera (pointer clientX clientY) in
  let dragPlaneNormal :=
    applyCameraQuaternion (mkVector3 (lit 0 1) (lit 0 1) (lit 1 1)) in
  let dragPlanePoint := mkVector3 (lit 0 1) dragPlaneY (lit 0 1) in
  match Vector3_setFromNormalAndCoplanarPoint with
  | Some setFromNormalAndCoplanarPoint =>
      Some (intersectPlane ray
              (setFromNormalAndCoplanarPoint dragPlaneNormal dragPlanePoint)
              Vec.zero)
  | None => None
  end.

(** A call of [handleMouseMove]: the state it leaves and how it ends;
    [enabled] is the prop of the provider.  A handler that throws has
    written nothing before. *)
Definition handleMouseMove_call `{Host} (enabled : bool)
    (clientX clientY : number) (st : State) : State * Completion :=
  if negb enabled then (st, Returns) else
  match isDragging st, draggedObject st with
  | true, Some d =>
      match dragIntersection clientX clientY with
      | Some intersection =>
          (if negb (isNaN (x intersection)) && negb (isNaN (y intersection))
              && negb (isNaN (z intersection))
           then set_scene (alter (updatePosition (fun _ => intersection))
                                 (object d)) st
           else st,
           Returns)
      | None => (st, Throws "TypeError")
      end
  | _, _ =>
      let newHoveredObject := resolvePointer clientX clientY st in
      let grab := match newHoveredObject with
                  | Some o => isDraggable o
                  | None => false
                  end in
      (mkState (scene st) (registeredObjects st) (draggedObject st)
               newHoveredObject (isDragging st)
               (if grab then "grab" else "default"),
       Returns)
  end.

(** The state after a pointer-move. *)
Definition handleMouseMove `{Host} (enabled : bool) (clientX clientY : number)
    (st : State) : State :=
  (handleMouseMove_call enabled clientX clientY st).1.

(** The effect [useEffect(..., [isDragging, hoveredObject, gl])] of
    the provider, which React runs after a render in which
    [isDragging] or [hoveredObject] has changed: it sets the cursor. *)
Definition cursorEffect (st : State) : State :=
  mkState (scene st) (registeredObjects st) (draggedObject st)
          (hoveredObject st) (isDragging st)
          (if isDragging st then "grabbing"
           else if match hoveredObject st with
                   | Some h => isDraggable h
                   | None => false
                   end
                then "grab" else "default").

(** [handleMouseUp] *)
Definition handleMouseUp (st : State) : State :=
  if isDragging st then endDrag st else st.

(** The position of the object of a handle. *)
Definition positionOf (st : State) (d : DragObject) : option Vector3 :=
  position <$> scene st !! object d.

(** Within the configured bounds: at least every configured minimum and
    at most every configured maximum. *)
Definition withinAxis (lo hi : option number) (p : number) : Prop :=
  (∀ m, lo = Some m → (m <= p)%js) ∧ (∀ m, hi = Some m → (p <= m)%js).

Definition withinBounds (c : Constraints) (pos : Vector3) : Prop :=
  withinAxis (minX c) (maxX c) (x pos) ∧
  withinAxis (minY c) (maxY c) (y pos) ∧
  withinAxis (minZ c) (maxZ c) (z pos).

(** The position and the configured bounds are numbers. *)
Definition numericAxis (lo hi : option number) (p : number) : Prop :=
  isNaN p = false ∧
  (∀ m, lo = Some m → isNaN m = false) ∧
  (∀ m, hi = Some m → isNaN m = false).

Definition numeric (c : Constraints) (pos : Vector3) : Prop :=
  numericAxis (minX c) (maxX c) (x pos) ∧
  numericAxis (minY c) (maxY c) (y pos) ∧
  numericAxis (minZ c) (maxZ c) (z pos).

(** The minimum of an axis is not above its maximum when both are
    configured. *)
Definition consistentAxis (lo hi : option number) : Prop :=
  ∀ m M, lo = Some m → hi = Some M → (m <= M)%js.

(** One axis after the release, as amended; [p] is the coordinate
    before and [p'] the coordinate after.  [p'] is at most the
    configured maximum; it is at least the configured minimum when this
    is not above the maximum of the axis, and it is the maximum when
    the minimum is above it; without a bound on the axis, [p'] is
    [p]. *)
Definition clampedAxis (lo hi : option number) (p p' : number) : Prop :=
  (∀ M, hi = Some M → (p' <= M)%js) ∧
  (∀ m, lo = Some m → consistentAxis lo hi → (m <= p')%js) ∧
  (∀ m M, lo = Some m → hi = Some M → (M < m)%js → p' = M) ∧
  (lo = None → hi = None → p' = p).

(** The clamping property as the specification words it: after
    [endDrag] the position of the dragged handle lies within each
    configured bound. *)
Definition endsWithinBounds (st : State) : Prop :=
  ∀ d c o,
    draggedObject st = Some d → constraints d = Some c →
    scene st !! object d = Some o →
    ∃ pos, positionOf (endDrag st) d = Some pos ∧ withinBounds c pos.

(** The registries that [registerObject] and [unregisterObject] build
    from the empty [Map] of the initial state. *)
Inductive reachable : list (string * DragObject) → Prop :=
| reachable_empty : reachable []
| reachable_register m obj :
    reachable m → reachable (Map_set (id obj) obj m)
| reachable_unregister m i :
    reachable m → reachable (Map_delete i m).

(** Every key of the registry is the id of the handle stored under it. *)
Definition wellKeyed (m : list (string * DragObject)) : Prop :=
  ∀ k d, (k, d) ∈ m → id d = k.

(** A handle as [InteractiveObject] builds it, with the default
    [minY = dragPlaneY - 0.5] and a maximum [maxY]. *)
Definition handle (i : string) (o : ObjRef) (maxY : option number) : DragObject :=
  mkDragObject i o equipment Vec.zero true
    (Some (mkConstraints (Some (lit 5 10)) maxY None None None None)).

(** The state in which [d] is dragged and its object, alone in the
    scene, is at [pos]. *)
Definition dragging (d : DragObject) (pos : Vector3) : State :=
  mkState {[object d := mkObject3D pos []]} [(id d, d)] (Some d) None true
          "grabbing".

(** A ray parallel to the plane [z = 0]: it has no intersection with
    it. *)
Definition parallelRay : Three.Ray :=
  Three.mkRay (mkVector3 (lit 0 1) (lit 1 1) (lit 5 1))
              (mkVector3 (lit 1 1) (lit 0 1) (lit 0 1)).

(** The ray through the centre of the view of a camera at [(0, 1, 5)]
    that looks down the negative [z] axis: it meets the plane [z = 0]
    at [(0, 1, 0)]. *)
Definition towardRay : Three.Ray :=
  Three.mkRay (mkVector3 (lit 0 1) (lit 1 1) (lit 5 1))
              (mkVector3 (lit 0 1) (lit 0 1) (lit (-1) 1)).

(** The host of the evaluations below: three.js's ray and plane, a
    camera that sends every pointer to the ray [r] and whose quaternion
    is the identity, a unit canvas, a ray caster that hits nothing.
    As in three.js, a [Vector3] has no method
    [setFromNormalAndCoplanarPoint]. *)
Definition threeHost (r : Three.Ray) : Host := {|
  Ray := Three.Ray;
  Plane := Three.Plane;
  getBoundingClientRect := mkDOMRect (lit 0 1) (lit 0 1) (lit 1 1) (lit 1 1);
  setFromCamera := fun _ => r;
  intersectObjects := fun _ _ _ => [];
  applyCameraQuaternion := fun v => v;
  Vector3_setFromNormalAndCoplanarPoint := None;
  intersectPlane := Three.intersectPlane;
|}.

(** *** Picking a handle up

    A [DragObject] is a value here.  The handle in the registry, the
    dragged one and the hovered one are one JavaScript object when
    they are equal as values, and they take a new [initialPosition]
    together. *)

(** [d.initialPosition = pos] *)
Definition setInitialPosition (pos : Vector3) (d : DragObject) : DragObject :=
  mkDragObject (id d) (object d) (type d) pos (isDraggable d) (constraints d).

Definition startDrag (obj : DragObject) (st : State) : State :=
  if negb (isDraggable obj) then st else
  let obj' :=
    match scene st !! object obj with
    | Some o => setInitialPosition (position o) obj
    | None => obj
    end in
  let alias (d : DragObject) := if decide (d = obj) then obj' else d in
  mkState (scene st)
          ((fun kv : string * DragObject => (kv.1, alias kv.2))
             <$> registeredObjects st)
          (Some obj') (alias <$> hoveredObject st) true (cursor st).

(** [handleMouseDown]: the loop over the registry stops at the first
    handle that owns the nearest hit. *)
Definition handleMouseDown `{Host} (enabled : bool) (clientX clientY : number)
    (st : State) : State :=
  if negb enabled then st else
  match getIntersection clientX clientY st with
  | clickedObject :: _ =>
      match List.find (owns st clickedObject)
                      (Map_values (registeredObjects st)) with
      | Some dragObject => startDrag dragObject st
      | None => st
      end
  | [] => st
  end.

(** A press at [(x1, y1)], a move to [(x2, y2)] and the release. *)
Definition dragGesture `{Host} (x1 y1 x2 y2 : number) (st : State) : State :=
  handleMouseUp (handleMouseMove true x2 y2 (handleMouseDown true x1 y1 st)).

(** The same host with a ray caster that hits the object [o] whenever
    [o] is among the objects it is given. *)
Definition hitHost (o : ObjRef) : Host := {|
  Ray := Three.Ray;
  Plane := Three.Plane;
  getBoundingClientRect := mkDOMRect (lit 0 1) (lit 0 1) (lit 1 1) (lit 1 1);
  setFromCamera := fun _ => towardRay;
  intersectObjects := fun _ _ objects =>
    if bool_decide (o ∈ objects) then [o] else [];
  applyCameraQuaternion := fun v => v;
  Vector3_setFromNormalAndCoplanarPoint := None;
  intersectPlane := Three.intersectPlane;
|}.

End DragDrop.

(** ** [src/physics/LiquidSystem.tsx] *)

Module LiquidSystem.

Record LiquidParticle : Type := mkLiquidParticle {
  id : string;
  position : Vector3;
  velocity : Vector3;
  color : string;
  size : number;
  lifetime : number;
  age : number;
  isPouring : bool;
}.

(** The fields [id] and [color] of a stream are [stream_id] and
    [stream_color] here, apart from the ones of a particle. *)
Record LiquidStream : Type := mkLiquidStream {
  stream_id : string;
  sourcePosition : Vector3;
  targetPosition : Vector3;
  particles : list LiquidParticle;
  isActive : bool;
  flowRate : number;
  stream_color : string;
}.

#[global] Instance LiquidParticle_eq_dec : EqDecision LiquidParticle.
Proof. solve_decision. Defined.
#[global] Instance LiquidStream_eq_dec : EqDecision LiquidStream.
Proof. solve_decision. Defined.

(** The props of [LiquidSystemProvider]. *)
Record Props : Type := mkProps {
  enabled : bool;
  maxParticles : number;
  gravity : Vector3;
}.

Definition defaultProps : Props :=
  mkProps true (lit 500 1) (mkVector3 (lit 0 1) (lit (-982) 100) (lit 0 1)).

(** The [useState] cells of the provider. *)
Record State : Type := mkState {
  streams : list LiquidStream;
  splashParticles : list LiquidParticle;
}.

(** What the callbacks mutate besides the state cells: the ref
    [particleIdCounter], the number of calls of [Math.random] so far,
    and the particles that calls of [createSplash] have asked React to
    append to [splashParticles] and that React has not appended yet. *)
Record World : Type := mkWorld {
  particleIdCounter : nat;
  randomCalls : nat;
  splashQueue : list LiquidParticle;
}.

(** What the provider takes from the host: the arithmetic of numbers,
    [Math], three.js and React. *)
Class Host : Type := {
  Host_arith :: Arith;
  (** the value of the [n]-th call of [Math.random()] *)
  Math_random_seq : nat → number;
  Math_cos : number → number;
  Math_sin : number → number;
  Math_PI : number;
  (** [a.distanceTo(b)] *)
  distanceTo : Vector3 → Vector3 → number;
  (** [v.normalize()] *)
  normalize : Vector3 → Vector3;
  (** Whether React runs the updater that the frame passes to
      [setStreams] at once, inside the call (it does so when the
      provider has no update pending), or at the next render. *)
  eagerState : World → bool;
}.

(** *** The state monad of the callbacks *)

Definition M (A : Type) : Type := World → A * World.

Definition ret {A} (a : A) : M A := fun w => (a, w).

Definition bind {A B} (c : M A) (k : A → M B) : M B :=
  fun w => let '(a, w') := c w in k a w'.

Notation "'let*' x ':=' c 'in' k" := (bind c (fun x => k))
  (at level 10, x name, c at level 100, k at level 200).

Fixpoint mapM {A B} (f : A → M B) (l : list A) : M (list B) :=
  match l with
  | [] => ret []
  | a :: l' => let* b := f a in let* bs := mapM f l' in ret (b :: bs)
  end.

(** [Math.random()] *)
Definition Math_random `{Host} : M number :=
  fun w => (Math_random_seq (randomCalls w),
            mkWorld (particleIdCounter w) (S (randomCalls w)) (splashQueue w)).

(** [particleIdCounter.current++] *)
Definition nextParticleId : M nat :=
  fun w => (particleIdCounter w,
            mkWorld (S (particleIdCounter w)) (randomCalls w) (splashQueue w)).

(** [setSplashParticles(prev => [...prev, ...newParticles])] *)
Definition enqueueSplash (newParticles : list LiquidParticle) : M unit :=
  fun w => (tt, mkWorld (particleIdCounter w) (randomCalls w)
                        (splashQueue w ++ newParticles)).

Definition createParticle `{Arith} (position velocity : Vector3)
    (color : string) (size lifetime : number) : M LiquidParticle :=
  let* n := nextParticleId in
  ret (mkLiquidParticle ("particle-" +:+ pretty n) position velocity color
                        size lifetime (lit 0 1) true).

Definition createStreamParticle `{Host} (props : Props) (stream : LiquidStream)
    (progress : number) : M LiquidParticle :=
  let streamPosition :=
    Vec.lerpVectors (sourcePosition stream) (targetPosition stream) progress in
  let* r1 := Math_random in
  let* r2 := Math_random in
  let randomOffset :=
    mkVector3 ((r1 - lit 5 10) * lit 2 100)%js (lit 0 1)
              ((r2 - lit 5 10) * lit 2 100)%js in
  let streamPosition := Vec.add streamPosition randomOffset in
  let direction :=
    normalize (Vec.subVectors (targetPosition stream) (sourcePosition stream)) in
  let* r3 := Math_random in
  let velocity := Vec.multiplyScalar direction (lit 2 1 + r3 * lit 5 10)%js in
  let velocity :=
    Vec.add velocity (Vec.multiplyScalar (gravity props) (lit 1 10)) in
  let* r4 := Math_random in
  let* r5 := Math_random in
  createParticle streamPosition velocity (stream_color stream)
    (lit 15 1000 + r4 * lit 1 100)%js (lit 15 10 + r5 * lit 5 10)%js.

(** The body of the loop of [createSplash] for the index [i]. *)
Definition splashParticle `{Host} (position : Vector3) (color : string)
    (count : number) (i : nat) : M LiquidParticle :=
  let angle := ((Math_PI * lit 2 1 * ofNat i) / count)%js in
  let* r1 := Math_random in
  let* r2 := Math_random in
  let* r3 := Math_random in
  let velocity :=
    mkVector3 (Math_cos angle * (lit 5 10 + r1 * lit 5 10))%js
              (lit 1 1 + r2 * lit 5 10)%js
              (Math_sin angle * (lit 5 10 + r3 * lit 5 10))%js in
  let* r4 := Math_random in
  let* r5 := Math_random in
  createParticle position velocity color
    (lit 1 100 + r4 * lit 2 100)%js (lit 5 10 + r5 * lit 5 10)%js.

Definition createSplash `{Host} (position : Vector3) (color : string)
    (count : number) : M unit :=
  let* newParticles :=
    mapM (splashParticle position color count) (seq 0 (loopCount count)) in
  enqueueSplash newParticles.

(** [setStreams(prev => prev.map(stream => stream.id === streamId ?
    { ...stream, isActive: false } : stream))] *)
Definition stopPour_deactivate (streamId : string) (prev : list LiquidStream)
  : list LiquidStream :=
  (fun stream =>
     if decide (stream_id stream = streamId)
     then mkLiquidStream (stream_id stream) (sourcePosition stream)
            (targetPosition stream) (particles stream) false
            (flowRate stream) (stream_color stream)
     else stream) <$> prev.

(** The callback that [stopPour] hands to [setTimeout(..., 3000)]:
    [setStreams(prev => prev.filter(stream => stream.id !== streamId))] *)
Definition stopPour_timeout (streamId : string) (prev : list LiquidStream)
  : list LiquidStream :=
  filter (fun stream => stream_id stream ≠ streamId) prev.

(** [stopPour] itself: the stream is marked inactive at once; the
    removal waits for the timer. *)
Definition stopPour (streamId : string) (st : State) : State :=
  mkState (stopPour_deactivate streamId (streams st)) (splashParticles st).

(** The state when the timer of [stopPour streamId] fires. *)
Definition stopPour_expired (streamId : string) (st : State) : State :=
  mkState (stopPour_timeout streamId (streams st)) (splashParticles st).

Definition clearAllStreams (st : State) : State := mkState [] [].

(** The callback of [updatedParticles.map] in [useFrame]: the fate of a
    particle of [stream] in a step of duration [delta]; [None] is the
    [null] that the following [filter] drops. *)
Definition updateStreamParticle `{Host} (props : Props) (delta : number)
    (stream : LiquidStream) (particle : LiquidParticle)
  : M (option LiquidParticle) :=
  let newVelocity :=
    Vec.add (velocity particle) (Vec.multiplyScalar (gravity props) delta) in
  let newPosition :=
    Vec.add (position particle) (Vec.multiplyScalar newVelocity delta) in
  let distanceToTarget := distanceTo newPosition (targetPosition stream) in
  if (distanceToTarget <? lit 1 10)%js then
    let* r := Math_random in
    let* _ := (if (r <? lit 3 10)%js
               then createSplash newPosition (stream_color stream) (lit 3 1)
               else ret tt) in
    ret None
  else
    let newAge := (age particle + delta)%js in
    if (newAge >? lifetime particle)%js then ret None
    else ret (Some (mkLiquidParticle (id particle) newPosition newVelocity
                      (color particle) (size particle) (lifetime particle)
                      newAge (isPouring particle))).

(** The particles that an active stream under its budget gains in a
    step. *)
Definition spawnParticles `{Host} (props : Props) (delta : number)
    (stream : LiquidStream) : M (list LiquidParticle) :=
  if isActive stream
     && (ofNat (length (particles stream)) <? maxParticles props / lit 10 1)%js
  then
    let particlesToAdd := Math_floor (flowRate stream * delta * lit 5 1)%js in
    mapM (fun _ : nat =>
            let* progress := Math_random in
            createStreamParticle props stream progress)
         (seq 0 (loopCount particlesToAdd))
  else ret [].

(** The callback of [prev.map] in the [setStreams] of [useFrame]. *)
Definition updateStream `{Host} (props : Props) (delta : number)
    (stream : LiquidStream) : M LiquidStream :=
  if negb (isActive stream) && bool_decide (length (particles stream) = 0)
  then ret stream
  else
    let* spawned := spawnParticles props delta stream in
    let updatedParticles := particles stream ++ spawned in
    let* fates := mapM (updateStreamParticle props delta stream) updatedParticles in
    ret (mkLiquidStream (stream_id stream) (sourcePosition stream)
           (targetPosition stream) (omap (fun p => p) fates) (isActive stream)
           (flowRate stream) (stream_color stream)).

(** The updater that [useFrame] passes to [setStreams]. *)
Definition updateStreams `{Host} (props : Props) (delta : number)
    (prev : list LiquidStream) : M (list LiquidStream) :=
  mapM (updateStream props delta) prev.

(** The velocity and the position of a splash particle after gravity,
    damping and the move of a step, before the test of the ground. *)
Definition splashIntegrate `{Arith} (props : Props) (delta : number)
    (particle : LiquidParticle) : Vector3 * Vector3 :=
  let newVelocity :=
    Vec.add (velocity particle)
            (Vec.multiplyScalar (gravity props) (delta * lit 15 10)%js) in
  let newVelocity := Vec.multiplyScalar newVelocity (lit 98 100) in
  let newPosition :=
    Vec.add (position particle) (Vec.multiplyScalar newVelocity delta) in
  (newPosition, newVelocity).

(** The callback of [prev.map] in the [setSplashParticles] of
    [useFrame]. *)
Definition updateSplashParticle `{Arith} (props : Props) (delta : number)
    (particle : LiquidParticle) : option LiquidParticle :=
  let '(newPosition, newVelocity) := splashIntegrate props delta particle in
  let '(newPosition, newVelocity) :=
    if (y newPosition <? lit 0 1)%js
    then (Vec.set_y newPosition (lit 0 1),
          Vec.multiplyScalar (Vec.set_y newVelocity (lit 0 1)) (lit 5 10))
    else (newPosition, newVelocity) in
  let newAge := (age particle + delta)%js in
  if (newAge >? lifetime particle)%js then None
  else Some (mkLiquidParticle (id particle) newPosition newVelocity
               (color particle) (size particle) (lifetime particle)
               newAge (isPouring particle)).

(** The updater that [useFrame] passes to [setSplashParticles]. *)
Definition updateSplashParticles `{Arith} (props : Props) (delta : number)
    (prev : list LiquidParticle) : list LiquidParticle :=
  omap (updateSplashParticle props delta) prev.

(** [splashQueue] is read and emptied: React applies the appends that
    were asked for. *)
Definition takeSplashQueue : M (list LiquidParticle) :=
  fun w => (splashQueue w, mkWorld (particleIdCounter w) (randomCalls w) []).

(** The two updaters that a step queues on [splashParticles]: the
    update of the frame, and the append of the particles [created] by
    the captures of the step, which [createSplash] queues while the
    updater of [setStreams] runs.  When React runs that updater at
    once ([eager]), the append is queued before the update of the
    frame and the created particles go through it; when React runs it
    at the next render, the append comes after the update. *)
Definition splashStep `{Arith} (props : Props) (eager : bool) (delta : number)
    (created prev : list LiquidParticle) : list LiquidParticle :=
  if eager then updateSplashParticles props delta (prev ++ created)
  else updateSplashParticles props delta prev ++ created.

(** The splash particles that the captures of a step create. *)
Definition capturedSplashes `{Host} (props : Props) (delta : number)
    (st : State) (w : World) : list LiquidParticle :=
  splashQueue (updateStreams props delta (streams st) (takeSplashQueue w).2).2.

(** A step of the simulation: the [useFrame] callback, and the state
    cells once React has applied the updaters queued up to its end.
    The appends that were asked for before the step are applied before
    the update of the frame. *)
Definition useFrame `{Host} (props : Props) (delta : number) (st : State)
  : M State :=
  fun w =>
    if negb (enabled props) then (st, w)
    else
      (let* pending := takeSplashQueue in
       let* streams' := updateStreams props delta (streams st) in
       let* created := takeSplashQueue in
       ret (mkState streams'
              (splashStep props (eagerState w) delta created
                 (splashParticles st ++ pending)))) w.

(** *** The fate of a particle as the specification words it *)

(** The position of a stream particle after gravity and the move of a
    step. *)
Definition streamIntegrate `{Arith} (props : Props) (delta : number)
    (p : LiquidParticle) : Vector3 * Vector3 :=
  let newVelocity :=
    Vec.add (velocity p) (Vec.multiplyScalar (gravity props) delta) in
  let newPosition :=
    Vec.add (position p) (Vec.multiplyScalar newVelocity delta) in
  (newPosition, newVelocity).

(** The updated position is within the capture radius of the target
    of the stream. *)
Definition captured `{Host} (props : Props) (delta : number)
    (stream : LiquidStream) (p : LiquidParticle) : bool :=
  (distanceTo (streamIntegrate props delta p).1 (targetPosition stream)
   <? lit 1 10)%js.

(** The updated age exceeds the lifetime. *)
Definition expired `{Arith} (delta : number) (p : LiquidParticle) : bool :=
  (age p + delta >? lifetime p)%js.

(** A stream particle is retired when it is captured or expired, and
    survives, moved and aged by [delta], otherwise. *)
Definition streamFate `{Host} (props : Props) (delta : number)
    (stream : LiquidStream) (p : LiquidParticle) : option LiquidParticle :=
  if captured props delta stream p || expired delta p then None
  else
    let '(newPosition, newVelocity) := streamIntegrate props delta p in
    Some (mkLiquidParticle (id p) newPosition newVelocity (color p) (size p)
            (lifetime p) (age p + delta)%js (isPouring p)).

(** The ground property as the specification words it: after a step
    every splash particle is at a height [>= 0]. *)
Definition splashAboveGround `{Host} (props : Props) (delta : number)
    (st : State) (w : World) : Prop :=
  ∀ q, q ∈ splashParticles (useFrame props delta st w).1 →
       (lit 0 1 <= y (position q))%js.

(** The removal property as the specification words it: a step removes
    every stream that is inactive and has no particle. *)
Definition stepRemovesIdle `{Host} (props : Props) (delta : number)
    (st : State) (w : World) : Prop :=
  ∀ s, s ∈ streams st → isActive s = false → particles s = [] →
       s ∉ streams (useFrame props delta st w).1.

(** An inactive stream without particles. *)
Definition idleStream (i : string) : LiquidStream :=
  mkLiquidStream i (mkVector3 (lit 0 1) (lit 2 1) (lit 0 1))
    (mkVector3 (lit 1 1) (lit 1 1) (lit 0 1)) [] false (lit 10 1) "#4ade80".

(** A particle at rest with the given lifetime and age. *)
Definition particleAt (pos : Vector3) (life a : number) : LiquidParticle :=
  mkLiquidParticle "particle-0" pos Vec.zero "#4ade80" (lit 2 100) life a true.

(** A stream that stopped pouring and still holds one particle. *)
Definition drainingStream (p : LiquidParticle) : LiquidStream :=
  mkLiquidStream "stream-0" (mkVector3 (lit 0 1) (lit 9 1) (lit 0 1))
    (mkVector3 (lit 9 1) (lit 9 1) (lit 9 1)) [p] false (lit 10 1) "#4ade80".

(** A stream that pours. *)
Definition pouringStream : LiquidStream :=
  mkLiquidStream "stream-0" (mkVector3 (lit 0 1) (lit 2 1) (lit 0 1))
    (mkVector3 (lit 4 1) (lit 0 1) (lit 0 1)) [] true (lit 10 1) "#4ade80".

(** A stream that stopped pouring into a container below the ground
    plane and whose last particle is about to reach the target. *)
Definition sinkingStream : LiquidStream :=
  mkLiquidStream "stream-0" (mkVector3 (lit 0 1) (lit 1 1) (lit 0 1))
    (mkVector3 (lit 0 1) (lit (-2) 1) (lit 0 1))
    [particleAt (mkVector3 (lit 0 1) (lit (-2) 1) (lit 0 1)) (lit 1 1) (lit 0 1)]
    false (lit 10 1) "#4ade80".

(** A host for the evaluations below: the arithmetic does not round,
    [Math.random] always gives [0.5], the trigonometric functions are
    constant, the distance is the squared one, [normalize] is the
    identity, and React runs the updater of [setStreams] at once. *)
Definition sampleHost : Host := {|
  Host_arith := exactArith;
  Math_random_seq := fun _ => lit 5 10;
  Math_cos := fun _ => lit 1 1;
  Math_sin := fun _ => lit 0 1;
  Math_PI := lit 314159 100000;
  distanceTo := fun a b =>
    let d := Vec.subVectors a b in Vec.dot d d;
  normalize := fun v => v;
  eagerState := fun _ => true;
|}.

(** The same host when [Math.random] always gives [0.25], so that
    every capture splashes, and React runs the updater of [setStreams]
    at the next render. *)
Definition lazyHost : Host := {|
  Host_arith := exactArith;
  Math_random_seq := fun _ => lit 25 100;
  Math_cos := fun _ => lit 1 1;
  Math_sin := fun _ => lit 0 1;
  Math_PI := lit 314159 100000;
  distanceTo := fun a b =>
    let d := Vec.subVectors a b in Vec.dot d d;
  normalize := fun v => v;
  eagerState := fun _ => false;
|}.

(** [sampleHost] with the arithmetic of binary64. *)
Definition roundingHost : Host := {|
  Host_arith := binary64Arith;
  Math_random_seq := fun _ => lit 5 10;
  Math_cos := fun _ => lit 1 1;
  Math_sin := fun _ => lit 0 1;
  Math_PI := lit 314159 100000;
  distanceTo := fun a b =>
    let d := @Vec.subVectors binary64Arith a b in @Vec.dot binary64Arith d d;
  normalize := fun v => v;
  eagerState := fun _ => true;
|}.

Definition world0 : World := mkWorld 0 0 [].

(** *** Starting a pour and running several steps *)

(** The argument of [startPour].  Of a container only its position is
    read (its id goes to the log), so [sourceContainer] and
    [targetContainer] are the positions of the two objects. *)
Record PourData : Type := mkPourData {
  sourceContainer : Vector3;
  targetContainer : Vector3;
  sourceVolume : number;
  targetVolume : number;
  transferRate : number;
  liquidColor : string;
}.

(** [startPour]: the ref [streamIdCounter] is passed in and out; the
    second component is the updater [prev => [...prev, newStream]]
    applied to [prev]. *)
Definition startPour `{Arith} (data : PourData) (streamIdCounter : nat)
    (prev : list LiquidStream) : nat * list LiquidStream :=
  let streamId := "stream-" +:+ pretty streamIdCounter in
  let sourcePosition :=
    Vec.set_y (sourceContainer data) (y (sourceContainer data) + lit 2 10)%js in
  let targetPosition :=
    Vec.set_y (targetContainer data) (y (targetContainer data) + lit 1 10)%js in
  let newStream :=
    mkLiquidStream streamId sourcePosition targetPosition [] true
                   (transferRate data) (liquidColor data) in
  (S streamIdCounter, prev ++ [newStream]).

(** The ids of the streams are among the ones that a counter at [n]
    has given out. *)
Definition idsBelow (n : nat) (l : list LiquidStream) : Prop :=
  ∀ s, s ∈ l → ∃ k, k < n ∧ stream_id s = "stream-" +:+ pretty k.

(** Successive steps of the simulation, one per duration. *)
Fixpoint useFrames `{Host} (props : Props) (deltas : list number) (st : State)
  : M State :=
  match deltas with
  | [] => ret st
  | delta :: deltas' =>
      let* st' := useFrame props delta st in useFrames props deltas' st'
  end.

(** The splash particles after successive updates of the frame
    alone. *)
Definition splashSteps `{Arith} (props : Props) (deltas : list number)
    (prev : list LiquidParticle) : list LiquidParticle :=
  foldl (fun ps delta => updateSplashParticles props delta ps) prev deltas.

(** What a step does to the splash particles depends on: whether
    React runs the updater of [setStreams] at once, the duration, and
    the particles that the captures of the step create. *)
Record SplashStep : Type := mkSplashStep {
  eager : bool;
  duration : number;
  created : list LiquidParticle;
}.

(** The splash particles after successive steps. *)
Definition splashRun `{Arith} (props : Props) (steps : list SplashStep)
    (prev : list LiquidParticle) : list LiquidParticle :=
  foldl (fun ps s => splashStep props (eager s) (duration s) (created s) ps)
        prev steps.

End LiquidSystem.

(** * Theorems *)

(** ** Numbers *)

(** Unfolds the canonical rationals down to [Q] and calls [lra]. *)
Ltac qc_lra :=
  repeat progress
    (unfold Qcle, Qclt, Qcplus, Qcminus, Qcopp, Qcmult, Q2Qc in *;
     cbn [this] in *);
  rewrite ?Qred_correct in *; lra.

(** Case analysis on the numbers of the context, with the comparisons
    turned into propositions. *)
Ltac num_cases :=
  repeat match goal with
  | a : number |- _ => destruct a
  end;
  unfold num_le, num_lt, js_ge, js_gt, js_le, js_lt, Math_max, Math_min,
    js_add, js_sub, js_mul, isNaN in *;
  simpl in *;
  repeat case_bool_decide; simplify_eq/=; try done.

Lemma Math_max_lower (m p : number) :
  isNaN m = false → isNaN p = false → (m <= Math_max m p)%js.
Proof. intros; num_cases; qc_lra. Qed.

Lemma Math_min_upper (m p : number) :
  isNaN m = false → isNaN p = false → (Math_min m p <= m)%js.
Proof. intros; num_cases; qc_lra. Qed.

Lemma Math_min_lower (lo m p : number) :
  (lo <= m)%js → (lo <= p)%js → (lo <= Math_min m p)%js.
Proof. intros; num_cases. Qed.

Lemma Math_max_isNaN (m p : number) :
  isNaN m = false → isNaN p = false → isNaN (Math_max m p) = false.
Proof. intros; num_cases. Qed.

Lemma Math_min_isNaN (m p : number) :
  isNaN m = false → isNaN p = false → isNaN (Math_min m p) = false.
Proof. intros; num_cases. Qed.

Lemma num_le_isNaN (a b : number) :
  (a <= b)%js → isNaN a = false ∧ isNaN b = false.
Proof. intros; num_cases. Qed.

(** Rounding shows: in binary64 the sum of [0.1] and [0.2] exceeds
    [0.3], and the product of [10], [0.06] and [5] is [3]. *)
Example binary64_rounding :
  (@decimal binary64Arith 3 10
   <? @js_add binary64Arith (@decimal binary64Arith 1 10)
        (@decimal binary64Arith 2 10))%js = true ∧
  (lit 3 10 <? lit 1 10 + lit 2 10)%js = false ∧
  @js_mul binary64Arith
    (@js_mul binary64Arith (lit 10 1) (@decimal binary64Arith 6 100)) (lit 5 1)
  = lit 3 1.
Proof.
  split; [|split]; [vm_compute; reflexivity..|].
  apply bool_decide_eq_true_1 with (Decision0 := decide _).
  vm_compute. reflexivity.
Qed.

(** ** Reaction lookup *)

Module ReactionLogicSpec.
Import ReactionLogic.

Lemma reactionOf_documented cat : documented cat (reactionOf cat).
Proof.
  unfold documented, reactionOf.
  repeat case_decide; naive_solver.
Qed.

Lemma generate_snoc experiments exp :
  generateReactionLogic (experiments ++ [exp])
  = <[id exp := reactionOf (category exp)]> (generateReactionLogic experiments).
Proof. unfold generateReactionLogic. by rewrite foldl_app. Qed.

(** Later experiments with other ids do not disturb an entry. *)
Lemma generate_app_other experiments rest key :
  (∀ e, e ∈ rest → id e ≠ key) →
  generateReactionLogic (experiments ++ rest) !! key
  = generateReactionLogic experiments !! key.
Proof.
  induction rest as [|e rest IH] using rev_ind; intros Hne.
  - by rewrite app_nil_r.
  - rewrite app_assoc, generate_snoc.
    rewrite lookup_insert_ne.
    + apply IH. intros e' He'. apply Hne.
      apply elem_of_app. by left.
    + apply Hne. apply elem_of_app. right. apply list_elem_of_singleton. done.
Qed.

Lemma generate_last_wins before exp after :
  (∀ e, e ∈ after → id e ≠ id exp) →
  generateReactionLogic (before ++ exp :: after) !! id exp
  = Some (reactionOf (category exp)).
Proof.
  intros Hne. rewrite (cons_middle exp), app_assoc.
  rewrite generate_app_other by done.
  rewrite generate_snoc. apply lookup_insert_eq.
Qed.

(** Ids that no experiment carries have no entry. *)
Lemma generate_absent experiments key :
  (∀ e, e ∈ experiments → id e ≠ key) →
  generateReactionLogic experiments !! key = None.
Proof.
  intros Hne.
  rewrite <- (app_nil_l experiments), generate_app_other by done.
  apply lookup_empty.
Qed.

(** The category is matched whatever its letter case. *)
Example reactionOf_mixed_case :
  reactionOf "Acid-Base" = reactionOf "acid-base" ∧
  reactionOf "PRECIPITATION" = reactionOf "precipitation" ∧
  reactionOf "comBUStion" = reactionOf "combustion".
Proof. repeat split; reflexivity. Qed.

(** C1, as stated, fails on a list in which two experiments share an
    id: the entry of the id is overwritten, and the first experiment
    finds the result of the second one's category. *)
Lemma generateReactionLogic_shared_id :
  ¬ maps_each_to_own_category
      [sample "e1" "acid-base"; sample "e1" "combustion"].
Proof.
  intros Hclaim.
  destruct (Hclaim (sample "e1" "acid-base")) as (r & Hr & Hdoc).
  { apply list_elem_of_here. }
  vm_compute in Hr. injection Hr as <-.
  unfold documented in Hdoc; simpl in Hdoc.
  destruct Hdoc as [(_ & ? & _)|[(? & _)|[(? & _)|(? & _)]]];
    try discriminate; contradiction.
Qed.

(** C1 (amended): for every list of experiments, the id of an
    experiment is mapped to the documented result of the category of
    the last experiment of the list that carries this id, matched
    case-insensitively: the neutralization result with (color-change,
    0.8) for acid-base, the precipitation result with (precipitation,
    0.9), the combustion result with (heat-release, 1.0), and "Reaction
    occurred" with (color-change, 0.7) for every other category. *)
Theorem generateReactionLogic_last_category before exp after :
  (∀ e, e ∈ after → id e ≠ id exp) →
  ∃ r, generateReactionLogic (before ++ exp :: after) !! id exp = Some r ∧
       documented (category exp) r.
Proof.
  intros Hlast. exists (reactionOf (category exp)). split.
  - by apply generate_last_wins.
  - apply reactionOf_documented.
Qed.

Lemma generateReactionLogic_last_category_witness :
  ∃ r, generateReactionLogic
         ([sample "e1" "acid-base"] ++ sample "e1" "COMBUSTION"
            :: [sample "e2" "Precipitation"]) !! "e1" = Some r ∧
       documented "COMBUSTION" r.
Proof.
  apply (generateReactionLogic_last_category
           [sample "e1" "acid-base"] (sample "e1" "COMBUSTION")
           [sample "e2" "Precipitation"]).
  intros e He. apply list_elem_of_singleton in He. subst e.
  simpl. discriminate.
Defined.

(** When the ids of the list are pairwise distinct, every experiment
    finds the result of its own category. *)
Corollary generateReactionLogic_distinct_ids experiments :
  NoDup (id <$> experiments) → maps_each_to_own_category experiments.
Proof.
  intros Hnd exp Hin.
  apply list_elem_of_split in Hin as (before & after & ->).
  exists (reactionOf (category exp)). split; [|apply reactionOf_documented].
  apply generate_last_wins. intros e He Heq.
  rewrite fmap_app, fmap_cons in Hnd.
  apply NoDup_app in Hnd as (_ & _ & Hnd).
  apply NoDup_cons in Hnd as [Hnotin _].
  apply Hnotin. rewrite <- Heq. by apply list_elem_of_fmap_2.
Qed.

(** A read gives a stored result exactly at the keys that were
    assigned. *)
Lemma get_Result (reactionLogic : gmap string ReactionResult) (key : string)
    (r : ReactionResult) :
  get reactionLogic key = Result r ↔ reactionLogic !! key = Some r.
Proof.
  unfold get, inherited. destruct (reactionLogic !! key) as [r0|].
  - split; by intros [= ->].
  - split; [|done]. repeat case_match; done.
Qed.

(** The part of C2 that holds: the check returns a stored result
    exactly when at least two chemical ids are combined and the table
    holds this result under the id. *)
Lemma checkReactionTrigger_stored (chemicalIds : list string)
    (reactionLogic : gmap string ReactionResult) (experimentId : string)
    (r : ReactionResult) :
  checkReactionTrigger chemicalIds reactionLogic experimentId = Some (Result r)
  ↔ 2 ≤ length chemicalIds ∧ reactionLogic !! experimentId = Some r.
Proof.
  unfold checkReactionTrigger. rewrite <- get_Result.
  destruct (Nat.leb_spec 2 (length chemicalIds)) as [Hlen|Hlen]; simpl.
  - destruct (truthy (get reactionLogic experimentId)) eqn:Htrue.
    + split; [by intros [= ->] | by intros [_ ->]].
    + split; [done|]. intros [_ Hr]. by rewrite Hr in Htrue.
  - split; [done|]. intros [? _]. lia.
Qed.

(** With fewer than two chemical ids the check returns nothing. *)
Lemma checkReactionTrigger_few (chemicalIds : list string)
    (reactionLogic : gmap string ReactionResult) (experimentId : string) :
  length chemicalIds < 2 →
  checkReactionTrigger chemicalIds reactionLogic experimentId = None.
Proof.
  intros Hlen. unfold checkReactionTrigger.
  by destruct (Nat.leb_spec 2 (length chemicalIds)) as [?|_]; [lia|].
Qed.

(** C2: evaluation at the experiment ids ["toString"],
    ["constructor"] and ["__proto__"] with two chemicals combined.
    The table holds no result under these ids, and the specification
    asks for nothing to be returned; the check returns what the table
    inherits from [Object.prototype]. *)
Theorem checkReactionTrigger_inherited :
  let logic := generateReactionLogic [sample "e1" "acid-base"] in
  logic !! "toString" = None ∧ logic !! "constructor" = None ∧
  logic !! "__proto__" = None ∧
  checkReactionTrigger ["HCl"; "NaOH"] logic "toString"
  = Some (Builtin "toString") ∧
  checkReactionTrigger ["HCl"; "NaOH"] logic "constructor"
  = Some (Builtin "constructor") ∧
  checkReactionTrigger ["HCl"; "NaOH"] logic "__proto__"
  = Some ObjectPrototype ∧
  checkReactionTrigger ["HCl"; "NaOH"] ∅ "toString" = Some (Builtin "toString") ∧
  ¬ triggersOnStoredOnly ["HCl"; "NaOH"] logic "toString".
Proof.
  intros logic. repeat split; try reflexivity.
  intros [_ Hnone].
  assert (checkReactionTrigger ["HCl"; "NaOH"] logic "toString" = None) as Habs.
  { apply Hnone. by right. }
  vm_compute in Habs. discriminate.
Qed.

(** One chemical added to an acid-base experiment gives nothing, two
    give the neutralization result, and an id that is unknown and that
    [Object.prototype] does not know either gives nothing. *)
Example checkReactionTrigger_acid_base :
  let logic := generateReactionLogic [sample "e1" "acid-base"] in
  checkReactionTrigger ["HCl"] logic "e1" = None ∧
  checkReactionTrigger ["HCl"; "NaOH"] logic "e1"
  = Some (Result (mkReactionResult "Neutralization reaction occurred"
                    [mkReactionEffect "color-change" (lit 8 10)])) ∧
  checkReactionTrigger ["HCl"; "NaOH"] logic "e2" = None.
Proof. repeat split; reflexivity. Qed.

End ReactionLogicSpec.

(** ** Container volume *)

Module BeakerSpec.
Import Beaker.

(** One pour-end event keeps the volume between [0] and the maximum. *)
Lemma handlePourEnd_invariant (maxVolume pouredVolume : number) (st : State) :
  (lit 0 1 <= currentVolume st)%js →
  (currentVolume st <= maxVolume)%js →
  (lit 0 1 <= pouredVolume)%js →
  (lit 0 1 <= currentVolume (handlePourEnd pouredVolume st))%js ∧
  (currentVolume (handlePourEnd pouredVolume st) <= maxVolume)%js.
Proof.
  destruct st as [pouring current]; unfold handlePourEnd, lit; simpl.
  intros; num_cases; split; qc_lra.
Qed.

Lemma pourEnds_invariant (maxVolume : number) (poured : list number) :
  ∀ st : State,
  (lit 0 1 <= currentVolume st)%js →
  (currentVolume st <= maxVolume)%js →
  Forall (fun p => (lit 0 1 <= p)%js) poured →
  (lit 0 1 <= currentVolume (pourEnds poured st))%js ∧
  (currentVolume (pourEnds poured st) <= maxVolume)%js.
Proof.
  induction poured as [|p poured IH]; intros st Hlo Hhi Hall; [done|].
  apply Forall_cons in Hall as [Hp Hall].
  destruct (handlePourEnd_invariant maxVolume p st) as [Hlo' Hhi']; [done..|].
  unfold pourEnds; simpl. by apply IH.
Qed.

(** C5: when [0 <= current <= max] and the poured amount is not
    negative, a pour-end event leaves [clamp(current - poured, 0, max)]
    as the current volume; hence after any sequence of such events the
    current volume is neither negative nor above the maximum. *)
Theorem handlePourEnd_clamp (maxVolume pouredVolume : number)
    (poured : list number) (st : State) :
  (lit 0 1 <= currentVolume st)%js →
  (currentVolume st <= maxVolume)%js →
  (lit 0 1 <= pouredVolume)%js →
  Forall (fun p => (lit 0 1 <= p)%js) poured →
  currentVolume (handlePourEnd pouredVolume st)
  = clamp (currentVolume st - pouredVolume)%js (lit 0 1) maxVolume ∧
  (lit 0 1 <= currentVolume (pourEnds poured st))%js ∧
  (currentVolume (pourEnds poured st) <= maxVolume)%js.
Proof.
  intros Hlo Hhi Hp Hall. split; [|by apply pourEnds_invariant].
  destruct st as [pouring current]; unfold handlePourEnd, clamp, lit in *; simpl in *.
  num_cases; try qc_lra.
  f_equal. apply Qc_is_canon. qc_lra.
Qed.

Lemma handlePourEnd_clamp_witness :
  currentVolume (handlePourEnd (lit 60 1) (mkState true (lit 50 1)))
  = clamp (lit 50 1 - lit 60 1)%js (lit 0 1) (lit 250 1) ∧
  (lit 0 1 <= currentVolume (pourEnds [lit 2 1; lit 60 1; lit 2 1]
                               (mkState true (lit 50 1))))%js ∧
  (currentVolume (pourEnds [lit 2 1; lit 60 1; lit 2 1]
                    (mkState true (lit 50 1))) <= lit 250 1)%js.
Proof.
  apply (handlePourEnd_clamp (lit 250 1) (lit 60 1)
           [lit 2 1; lit 60 1; lit 2 1] (mkState true (lit 50 1))).
  - vm_compute; reflexivity.
  - vm_compute; reflexivity.
  - vm_compute; reflexivity.
  - repeat constructor.
Defined.

(** Pouring 60 mL out of 50 mL leaves an empty container. *)
Example handlePourEnd_empties :
  currentVolume (handlePourEnd (lit 60 1) (mkState true (lit 50 1))) = lit 0 1.
Proof. reflexivity. Qed.

End BeakerSpec.

(** ** Drag-and-drop registry *)

Module DragDropSpec.
Import DragDrop.

(** *** Clamping on release *)

(** A configured maximum always holds after the clamping. *)
Lemma clampAxis_upper (lo hi : option number) (p M : number) :
  numericAxis lo hi p → hi = Some M → (clampAxis lo hi p <= M)%js.
Proof.
  intros (Hp & Hlo & Hhi) ->. specialize (Hhi M eq_refl).
  unfold clampAxis. destruct lo as [m|].
  - specialize (Hlo m eq_refl).
    apply Math_min_upper; [done|]. by apply Math_max_isNaN.
  - by apply Math_min_upper.
Qed.

(** A configured minimum holds after the clamping when it is not above
    the maximum. *)
Lemma clampAxis_lower (lo hi : option number) (p m : number) :
  numericAxis lo hi p → consistentAxis lo hi → lo = Some m →
  (m <= clampAxis lo hi p)%js.
Proof.
  intros (Hp & Hlo & Hhi) Hcons ->. specialize (Hlo m eq_refl).
  unfold clampAxis. destruct hi as [M|].
  - apply Math_min_lower; [by apply Hcons|]. by apply Math_max_lower.
  - by apply Math_max_lower.
Qed.

(** When the minimum is above the maximum, the maximum wins. *)
Lemma clampAxis_inverted (m M p : number) :
  isNaN p = false → (M < m)%js → clampAxis (Some m) (Some M) p = M.
Proof. unfold clampAxis. intros; num_cases; qc_lra. Qed.

Lemma endDrag_position (st : State) (d : DragObject) (c : Constraints)
    (o : Object3D) :
  draggedObject st = Some d → constraints d = Some c →
  scene st !! object d = Some o →
  positionOf (endDrag st) d = Some (clampPosition c (position o)).
Proof.
  intros Hd Hc Ho. unfold positionOf, endDrag. rewrite Hd, Hc. simpl.
  rewrite lookup_alter_eq, Ho. done.
Qed.

(** The clamping of one axis whose coordinate and bounds are
    numbers. *)
Lemma clampAxis_clamped (lo hi : option number) (p : number) :
  numericAxis lo hi p → clampedAxis lo hi p (clampAxis lo hi p).
Proof.
  intros Hnum. split; [|split; [|split]].
  - intros M HM. by apply clampAxis_upper.
  - intros m Hm Hcons. by apply clampAxis_lower.
  - intros m M -> -> Hinv. apply clampAxis_inverted; [|done]. by destruct Hnum.
  - by intros -> ->.
Qed.

(** C3, as stated, fails in two ways.  For a handle whose minimum lies
    above its maximum: [InteractiveObject] gives every handle
    [minY = 0.5], and with [maxY = 0] a handle released at [y = 2] ends
    at [y = 0].  And for a coordinate that is [NaN]: [Math.max] and
    [Math.min] give [NaN], which is not [>= 0.5]. *)
Lemma endDrag_out_of_bounds :
  ¬ endsWithinBounds
      (dragging (handle "flask" 0 (Some (lit 0 1)))
                (mkVector3 (lit 0 1) (lit 2 1) (lit 0 1))) ∧
  ¬ endsWithinBounds
      (dragging (handle "flask" 0 None)
                (mkVector3 (lit 0 1) NaN (lit 0 1))).
Proof.
  split; intros Hclaim.
  - edestruct Hclaim as (pos & Hpos & _ & (Hmin & _) & _); [done..|].
    vm_compute in Hpos. injection Hpos as <-.
    specialize (Hmin (lit 5 10) eq_refl). vm_compute in Hmin. discriminate.
  - edestruct Hclaim as (pos & Hpos & _ & (Hmin & _) & _); [done..|].
    vm_compute in Hpos. injection Hpos as <-.
    specialize (Hmin (lit 5 10) eq_refl). vm_compute in Hmin. discriminate.
Qed.

(** C3 (amended): when the position and the configured bounds of the
    dragged handle are numbers, [endDrag] leaves, on each axis, the
    coordinate at most the maximum configured for the axis, and at
    least the minimum configured for the axis provided this minimum is
    not above the maximum of the same axis; when it is above, the
    coordinate ends at the maximum; an axis without configured bound
    keeps its coordinate; the dragged reference is cleared. *)
Theorem endDrag_clamps (st : State) (d : DragObject) (c : Constraints)
    (o : Object3D) :
  draggedObject st = Some d → constraints d = Some c →
  scene st !! object d = Some o →
  numeric c (position o) →
  ∃ pos,
    positionOf (endDrag st) d = Some pos ∧
    clampedAxis (minX c) (maxX c) (x (position o)) (x pos) ∧
    clampedAxis (minY c) (maxY c) (y (position o)) (y pos) ∧
    clampedAxis (minZ c) (maxZ c) (z (position o)) (z pos) ∧
    draggedObject (endDrag st) = None ∧
    isDragging (endDrag st) = false.
Proof.
  intros Hd Hc Ho (Hnx & Hny & Hnz).
  exists (clampPosition c (position o)).
  split; [by apply endDrag_position|].
  unfold clampPosition; cbn [x y z].
  split; [by apply clampAxis_clamped|].
  split; [by apply clampAxis_clamped|].
  split; [by apply clampAxis_clamped|].
  done.
Qed.

(** The example of the specification, a handle with [minY = 0.5]
    released at [y = -3], which ends at [y = 0.5] with its other
    coordinates as they were; and a handle with [minY = 0.5] and
    [maxY = 0] released at [y = 2], which ends at [y = 0]. *)
Lemma endDrag_clamps_witness :
  (∃ pos,
     positionOf (endDrag (dragging (handle "flask" 0 None)
                            (mkVector3 (lit 1 1) (lit (-3) 1) (lit 2 1))))
                (handle "flask" 0 None) = Some pos ∧
     (lit 5 10 <= y pos)%js ∧ x pos = lit 1 1 ∧ z pos = lit 2 1) ∧
  (∃ pos,
     positionOf (endDrag (dragging (handle "flask" 0 (Some (lit 0 1)))
                            (mkVector3 (lit 1 1) (lit 2 1) (lit 2 1))))
                (handle "flask" 0 (Some (lit 0 1))) = Some pos ∧
     y pos = lit 0 1).
Proof.
  split.
  - destruct (endDrag_clamps
                (dragging (handle "flask" 0 None)
                   (mkVector3 (lit 1 1) (lit (-3) 1) (lit 2 1)))
                (handle "flask" 0 None)
                (mkConstraints (Some (lit 5 10)) None None None None None)
                (mkObject3D (mkVector3 (lit 1 1) (lit (-3) 1) (lit 2 1)) []))
      as (pos & Hpos & (_ & _ & _ & Hx) & (_ & Hy & _) & (_ & _ & _ & Hz) & _).
    + reflexivity.
    + reflexivity.
    + reflexivity.
    + repeat split; simpl; intros; simplify_eq; reflexivity.
    + exists pos. split; [exact Hpos|].
      split; [|split; [by apply Hx | by apply Hz]].
      apply (Hy (lit 5 10)); [reflexivity|]. by intros m M _ [=].
  - destruct (endDrag_clamps
                (dragging (handle "flask" 0 (Some (lit 0 1)))
                   (mkVector3 (lit 1 1) (lit 2 1) (lit 2 1)))
                (handle "flask" 0 (Some (lit 0 1)))
                (mkConstraints (Some (lit 5 10)) (Some (lit 0 1)) None None None None)
                (mkObject3D (mkVector3 (lit 1 1) (lit 2 1) (lit 2 1)) []))
      as (pos & Hpos & _ & (_ & _ & Hy & _) & _).
    + reflexivity.
    + reflexivity.
    + reflexivity.
    + repeat split; simpl; intros; simplify_eq; reflexivity.
    + exists pos. split; [exact Hpos|].
      apply (Hy (lit 5 10) (lit 0 1)); reflexivity.
Defined.

(** The handle released at [y = -3] ends at [y = 0.5]. *)
Example endDrag_table :
  positionOf (endDrag (dragging (handle "flask" 0 None)
                         (mkVector3 (lit 1 1) (lit (-3) 1) (lit 2 1))))
             (handle "flask" 0 None)
  = Some (mkVector3 (lit 1 1) (lit 5 10) (lit 2 1)).
Proof.
  apply bool_decide_eq_true_1 with (Decision0 := decide _).
  vm_compute. reflexivity.
Qed.

(** *** Moving the dragged handle *)

(** When the plane argument can be built and the computed intersection
    holds a [NaN] coordinate, the update is skipped and the state is
    the one before. *)
Lemma handleMouseMove_NaN_skipped `{Host} (enabled : bool)
    (clientX clientY : number) (st : State) (d : DragObject)
    (intersection : Vector3) :
  isDragging st = true → draggedObject st = Some d →
  dragIntersection clientX clientY = Some intersection →
  isNaN (x intersection) || isNaN (y intersection) || isNaN (z intersection)
  = true →
  handleMouseMove enabled clientX clientY st = st.
Proof.
  intros Hdrag Hd Hint Hnan. unfold handleMouseMove, handleMouseMove_call.
  destruct enabled; [simpl|done]. rewrite Hdrag, Hd, Hint.
  destruct (isNaN (x _)), (isNaN (y _)), (isNaN (z _)); done.
Qed.

(** When the plane argument can be built and the computed vector holds
    no [NaN], the dragged object takes the vector as its position. *)
Lemma handleMouseMove_moves `{Host} (clientX clientY : number) (st : State)
    (d : DragObject) (o : Object3D) (intersection : Vector3) :
  isDragging st = true → draggedObject st = Some d →
  scene st !! object d = Some o →
  dragIntersection clientX clientY = Some intersection →
  isNaN (x intersection) = false →
  isNaN (y intersection) = false →
  isNaN (z intersection) = false →
  positionOf (handleMouseMove true clientX clientY st) d = Some intersection.
Proof.
  intros Hdrag Hd Ho Hint Hx Hy Hz.
  unfold handleMouseMove, handleMouseMove_call, positionOf; simpl.
  rewrite Hdrag, Hd, Hint, Hx, Hy, Hz; simpl.
  rewrite lookup_alter_eq, Ho. done.
Qed.

(** Without the method the evaluation of the plane argument throws:
    the handler ends there, before the intersection, the test for
    [NaN] and the move. *)
Lemma handleMouseMove_call_throws `{Host} (clientX clientY : number)
    (st : State) (d : DragObject) :
  Vector3_setFromNormalAndCoplanarPoint = None →
  isDragging st = true → draggedObject st = Some d →
  handleMouseMove_call true clientX clientY st = (st, Throws "TypeError").
Proof.
  intros Hnone Hdrag Hd. unfold handleMouseMove_call, dragIntersection.
  simpl. by rewrite Hdrag, Hd, Hnone.
Qed.

(** C4: on three.js, where a [Vector3] has no method
    [setFromNormalAndCoplanarPoint], every pointer-move during a drag
    throws a [TypeError], whatever the ray and the plane, and the
    dragged handle is not moved.  The specification asks for a handler
    that never raises an error. *)
Theorem handleMouseMove_throws `{Host} (clientX clientY : number) (st : State)
    (d : DragObject) :
  Vector3_setFromNormalAndCoplanarPoint = None →
  isDragging st = true → draggedObject st = Some d →
  (handleMouseMove_call true clientX clientY st).2 = Throws "TypeError" ∧
  handleMouseMove true clientX clientY st = st.
Proof.
  intros Hnone Hdrag Hd. unfold handleMouseMove.
  by rewrite (handleMouseMove_call_throws clientX clientY st d).
Qed.

(** The evaluation at a ray parallel to the drag plane, and at a ray
    that meets it. *)
Lemma handleMouseMove_throws_witness :
  let d := handle "flask" 0 None in
  let st := dragging d (mkVector3 (lit 2 1) (lit 1 1) (lit 3 1)) in
  ((@handleMouseMove_call (threeHost parallelRay) true (lit 0 1) (lit 0 1) st).2
   = Throws "TypeError" ∧
   @handleMouseMove (threeHost parallelRay) true (lit 0 1) (lit 0 1) st = st) ∧
  ((@handleMouseMove_call (threeHost towardRay) true (lit 0 1) (lit 0 1) st).2
   = Throws "TypeError" ∧
   @handleMouseMove (threeHost towardRay) true (lit 0 1) (lit 0 1) st = st).
Proof.
  intros d st. split.
  - apply (@handleMouseMove_throws (threeHost parallelRay) (lit 0 1) (lit 0 1)
             st d); reflexivity.
  - apply (@handleMouseMove_throws (threeHost towardRay) (lit 0 1) (lit 0 1)
             st d); reflexivity.
Defined.

(** *** Registration *)

Lemma elem_of_Map_set {V} (k k' : string) (v v' : V) (m : list (string * V)) :
  (k', v') ∈ Map_set k v m →
  (k', v') = (k, v) ∨ ((k', v') ∈ m ∧ k' ≠ k).
Proof.
  unfold Map_set. case_bool_decide as Hin.
  - intros Hel. apply list_elem_of_fmap in Hel as ([k0 v0] & Heq & Hel).
    simpl in Heq. case_decide; simplify_eq; [by left | by right].
  - intros Hel. apply elem_of_app in Hel as [Hel|Hel].
    + right. split; [done|]. intros ->. apply Hin.
      apply list_elem_of_fmap. by exists (k, v').
    + apply list_elem_of_singleton in Hel. by left.
Qed.

Lemma elem_of_Map_delete {V} (k k' : string) (v' : V) (m : list (string * V)) :
  (k', v') ∈ Map_delete k m ↔ k' ≠ k ∧ (k', v') ∈ m.
Proof. unfold Map_delete. by rewrite list_elem_of_filter. Qed.

Lemma Map_delete_absent {V} (k : string) (m : list (string * V)) :
  k ∉ m.*1 → Map_delete k m = m.
Proof.
  unfold Map_delete. induction m as [|[k0 v0] m IH]; [done|].
  rewrite fmap_cons, not_elem_of_cons. simpl. intros [Hne Hnotin].
  rewrite filter_cons_True by (simpl; congruence).
  by rewrite IH.
Qed.

Lemma Map_delete_set {V} (k : string) (v : V) (m : list (string * V)) :
  Map_delete k (Map_set k v m) = Map_delete k m.
Proof.
  unfold Map_set. case_bool_decide as Hin.
  - clear Hin. unfold Map_delete.
    induction m as [|[k0 v0] m IH]; [done|].
    rewrite fmap_cons. simpl. case_decide as Hk; simpl in Hk.
    + subst k0. rewrite !filter_cons_False by (simpl; tauto). done.
    + rewrite !filter_cons_True by done. by rewrite IH.
  - unfold Map_delete. rewrite filter_app. simpl.
    rewrite filter_cons_False by (simpl; tauto).
    rewrite filter_nil. apply app_nil_r.
Qed.

Lemma reachable_wellKeyed (m : list (string * DragObject)) :
  reachable m → wellKeyed m.
Proof.
  induction 1 as [|m obj _ IH|m i _ IH]; intros k d Hel.
  - by apply elem_of_nil in Hel.
  - apply elem_of_Map_set in Hel as [Heq|[Hel _]]; [by simplify_eq|by apply IH].
  - apply elem_of_Map_delete in Hel as [_ Hel]. by apply IH.
Qed.

(** A resolved handle is one of the registered handles. *)
Lemma resolvePointer_registered `{Host} (clientX clientY : number) (st : State)
    (d : DragObject) :
  resolvePointer clientX clientY st = Some d →
  ∃ k, (k, d) ∈ registeredObjects st.
Proof.
  unfold resolvePointer. destruct (getIntersection _ _ _) as [|hit hits]; [done|].
  intros Hfind. apply find_some in Hfind as [Hin _].
  apply list_elem_of_In in Hin. unfold Map_values in Hin.
  apply list_elem_of_fmap in Hin as ([k d'] & -> & Hel). by exists k.
Qed.

(** C9: after [registerObject h] followed by [unregisterObject (id h)]
    the registry is the one in which the id was never registered, the
    ray is cast against the objects of the remaining handles only, no
    pointer resolves to [h], and hovering does not select it;
    unregistering an id that is not registered changes nothing. *)
Theorem unregister_after_register `{Host} (st : State) (h : DragObject) :
  reachable (registeredObjects st) →
  let st' := unregisterObject (id h) (registerObject h st) in
  registeredObjects st' = Map_delete (id h) (registeredObjects st) ∧
  (∀ k d, (k, d) ∈ registeredObjects st' → id d ≠ id h) ∧
  (∀ clientX clientY,
     getIntersection clientX clientY st'
     = intersectObjects (setFromCamera (pointer clientX clientY)) (scene st)
         (object <$> Map_values (Map_delete (id h) (registeredObjects st)))) ∧
  (∀ clientX clientY, resolvePointer clientX clientY st' ≠ Some h) ∧
  (∀ enabled clientX clientY,
     hoveredObject (handleMouseMove enabled clientX clientY st') = Some h →
     hoveredObject st = Some h) ∧
  (∀ i, i ∉ (registeredObjects st).*1 → unregisterObject i st = st).
Proof.
  intros Hreach st'.
  assert (registeredObjects st' = Map_delete (id h) (registeredObjects st)) as Hreg.
  { unfold st'; simpl. apply Map_delete_set. }
  assert (∀ k d, (k, d) ∈ registeredObjects st' → id d ≠ id h) as Hids.
  { intros k d. rewrite Hreg. intros Hel.
    apply elem_of_Map_delete in Hel as [Hne Hel].
    by rewrite (reachable_wellKeyed _ Hreach k d Hel). }
  assert (∀ clientX clientY, resolvePointer clientX clientY st' ≠ Some h) as Hres.
  { intros clientX clientY Hsome.
    apply resolvePointer_registered in Hsome as [k Hel].
    by apply (Hids k h Hel). }
  split; [done|]. split; [done|].
  split. { intros. unfold getIntersection, castTargets. by rewrite Hreg. }
  split; [done|].
  split.
  { intros enabled clientX clientY.
    unfold handleMouseMove, handleMouseMove_call.
    destruct enabled; simpl; [|done].
    destruct (isDragging st) eqn:Hdrag, (draggedObject st) eqn:Hd; simpl;
      try (intros Hh; by apply Hres in Hh).
    repeat case_match; done. }
  intros i Hi. destruct st as [sc reg dr ho dg cu].
  unfold unregisterObject, set_registeredObjects; simpl in *.
  by rewrite Map_delete_absent.
Qed.

(** A pointer over the flask resolves to its handle while the handle
    is registered, and to nothing once it is unregistered. *)
Example resolvePointer_flask :
  let h := handle "flask" 0 None in
  let st := mkState {[0 := mkObject3D Vec.zero []]} [] None None false "default" in
  @resolvePointer (hitHost 0) (lit 0 1) (lit 0 1) (registerObject h st) = Some h ∧
  @resolvePointer (hitHost 0) (lit 0 1) (lit 0 1)
    (unregisterObject "flask" (registerObject h st)) = None.
Proof. split; reflexivity. Qed.

Lemma unregister_after_register_witness :
  let h := handle "flask" 0 None in
  let st := registerObject (handle "beaker" 1 None)
              (mkState ∅ [] None None false "default") in
  registeredObjects (unregisterObject "flask" (registerObject h st))
  = [("beaker", handle "beaker" 1 None)] ∧
  unregisterObject "tube" st = st.
Proof.
  intros h st.
  destruct (@unregister_after_register (threeHost towardRay) st h)
    as (Hreg & _ & _ & _ & _ & Hnoop).
  - apply (reachable_register [] (handle "beaker" 1 None)), reachable_empty.
  - split.
    + etrans; [exact Hreg | reflexivity].
    + apply Hnoop. simpl. intros Hin.
      apply list_elem_of_singleton in Hin. discriminate.
Defined.

End DragDropSpec.

(** ** Liquid particle simulator *)

Module LiquidSystemSpec.
Import LiquidSystem.

(** *** The monad *)

(** A computation whose result does not depend on the world maps like
    a function. *)
Lemma mapM_pure {A B} (f : A → M B) (g : A → B) (l : list A) :
  (∀ a w, (f a w).1 = g a) → ∀ w, (mapM f l w).1 = g <$> l.
Proof.
  intros Hfg. induction l as [|a l IH]; intros w; [done|].
  simpl. unfold bind, ret.
  destruct (f a w) as [b w1] eqn:Hb.
  destruct (mapM f l w1) as [bs w2] eqn:Hbs.
  simpl. f_equal.
  - by rewrite <- (Hfg a w), Hb.
  - specialize (IH w1). rewrite Hbs in IH. exact IH.
Qed.

(** The [i]-th result of [mapM] is the result of the function on the
    [i]-th element, in the world that the earlier elements left. *)
Lemma mapM_lookup {A B} (f : A → M B) (l : list A) :
  ∀ (w : World) (i : nat) (a : A),
  l !! i = Some a → ∃ w', (mapM f l w).1 !! i = Some (f a w').1.
Proof.
  induction l as [|a0 l IH]; intros w i a Hi; [done|].
  simpl. unfold bind, ret.
  destruct (f a0 w) as [b w1] eqn:Hb.
  destruct (mapM f l w1) as [bs w2] eqn:Hbs.
  destruct i as [|i]; simpl in *.
  - injection Hi as <-. exists w. by rewrite Hb.
  - destruct (IH w1 i a Hi) as [w' Hw']. exists w'.
    by rewrite Hbs in Hw'.
Qed.

Lemma omap_id_fmap {A B} (g : A → option B) (l : list A) :
  omap (fun p => p) (g <$> l) = omap g l.
Proof.
  induction l as [|a l IH]; [done|].
  simpl. destruct (g a); [f_equal|]; exact IH.
Qed.

(** *** Retirement of particles *)

(** The code decides the fate of a stream particle as [streamFate]
    does, whatever [Math.random] returns and whether or not a splash
    is created. *)
Lemma updateStreamParticle_fate `{Host} (props : Props) (delta : number)
    (stream : LiquidStream) (p : LiquidParticle) (w : World) :
  (updateStreamParticle props delta stream p w).1
  = streamFate props delta stream p.
Proof.
  unfold updateStreamParticle, streamFate, captured, expired, streamIntegrate.
  simpl. destruct (js_lt (distanceTo _ _) _); simpl.
  - unfold bind, ret.
    destruct (Math_random w) as [r w1].
    destruct (js_lt r _).
    + by destruct (createSplash _ _ _ w1).
    + done.
  - by destruct (js_gt _ _).
Qed.

Lemma spawnParticles_inactive `{Host} (props : Props) (delta : number)
    (stream : LiquidStream) (w : World) :
  isActive stream = false → spawnParticles props delta stream w = ([], w).
Proof. unfold spawnParticles. by intros ->. Qed.

(** The particles of a stream after a step: the survivors, in order,
    of its particles followed by the ones spawned in the step. *)
Lemma updateStream_particles `{Host} (props : Props) (delta : number)
    (stream : LiquidStream) (w : World) :
  particles (updateStream props delta stream w).1
  = omap (streamFate props delta stream)
         (particles stream ++ (spawnParticles props delta stream w).1).
Proof.
  unfold updateStream.
  destruct (negb (isActive stream) && bool_decide (length (particles stream) = 0))
    eqn:Hidle.
  - apply andb_prop in Hidle as [Hact Hlen].
    apply negb_true_iff in Hact. apply bool_decide_eq_true_1 in Hlen.
    apply length_zero_iff_nil in Hlen.
    rewrite spawnParticles_inactive by done. simpl. by rewrite Hlen.
  - unfold bind, ret.
    destruct (spawnParticles props delta stream w) as [spawned w1].
    destruct (mapM _ _ w1) as [fates w2] eqn:Hfates. simpl.
    rewrite <- (omap_id_fmap (streamFate props delta stream)). f_equal.
    pose proof (mapM_pure (updateStreamParticle props delta stream)
                  (streamFate props delta stream) (particles stream ++ spawned)
                  (updateStreamParticle_fate props delta stream) w1) as Hpure.
    by rewrite Hfates in Hpure.
Qed.

(** The two cells after a step of an enabled provider: the streams
    are updated in the world without pending appends, and the splash
    particles go through the two updaters of the step. *)
Lemma useFrame_enabled `{Host} (props : Props) (delta : number) (st : State)
    (w : World) :
  enabled props = true →
  streams (useFrame props delta st w).1
  = (updateStreams props delta (streams st) (takeSplashQueue w).2).1 ∧
  splashParticles (useFrame props delta st w).1
  = splashStep props (eagerState w) delta (capturedSplashes props delta st w)
      (splashParticles st ++ splashQueue w).
Proof.
  intros Hen. unfold useFrame, capturedSplashes. rewrite Hen. simpl.
  unfold bind, ret. simpl.
  by destruct (updateStreams _ _ _ _) as [streams' w1].
Qed.

(** The stream of index [i] after a step is the update of the stream
    of index [i]. *)
Lemma useFrame_stream `{Host} (props : Props) (delta : number) (st : State)
    (w : World) (i : nat) (stream : LiquidStream) :
  enabled props = true → streams st !! i = Some stream →
  ∃ w', streams (useFrame props delta st w).1 !! i
        = Some (updateStream props delta stream w').1.
Proof.
  intros Hen Hi.
  destruct (useFrame_enabled props delta st w Hen) as [-> _].
  unfold updateStreams.
  exact (mapM_lookup (updateStream props delta) (streams st) _ i stream Hi).
Qed.

Lemma streamFate_None `{Host} (props : Props) (delta : number)
    (stream : LiquidStream) (p : LiquidParticle) :
  streamFate props delta stream p = None
  ↔ captured props delta stream p = true ∨ expired delta p = true.
Proof.
  unfold streamFate. rewrite <- orb_true_iff.
  destruct (captured _ _ _ _ || expired _ _); [done|].
  destruct (streamIntegrate _ _ _). split; [done|]. by intros ?.
Qed.

Lemma streamFate_Some `{Host} (props : Props) (delta : number)
    (stream : LiquidStream) (p p' : LiquidParticle) :
  streamFate props delta stream p = Some p' →
  age p' = (age p + delta)%js ∧ id p' = id p ∧ lifetime p' = lifetime p ∧
  (position p', velocity p') = streamIntegrate props delta p.
Proof.
  unfold streamFate. destruct (captured _ _ _ _ || expired _ _); [done|].
  destruct (streamIntegrate _ _ _). by intros [= <-].
Qed.

Lemma updateSplashParticle_None `{Arith} (props : Props) (delta : number)
    (p : LiquidParticle) :
  updateSplashParticle props delta p = None ↔ expired delta p = true.
Proof.
  unfold updateSplashParticle, expired.
  destruct (splashIntegrate _ _ _) as [pos vel].
  destruct (js_lt (y pos) _); destruct (js_gt _ _); done.
Qed.

Lemma updateSplashParticle_Some `{Arith} (props : Props) (delta : number)
    (p p' : LiquidParticle) :
  updateSplashParticle props delta p = Some p' →
  age p' = (age p + delta)%js ∧ id p' = id p ∧ lifetime p' = lifetime p.
Proof.
  unfold updateSplashParticle.
  destruct (splashIntegrate _ _ _) as [pos vel].
  destruct (js_lt (y pos) _); destruct (js_gt _ _); try done;
    by intros [= <-].
Qed.

(** C6: in a simulation step of duration [delta], whatever the
    arithmetic of the host, every particle of a stream, the ones
    spawned in the step included, is retired when its updated position
    is within the capture radius 0.1 of the target of the stream or
    its updated age exceeds its lifetime, and otherwise stays in the
    population of the stream with its age increased by [delta]; every
    splash particle that the step updates is retired exactly when its
    updated age exceeds its lifetime, and otherwise stays with its age
    increased by [delta].  The step updates the splash particles of
    the state, the ones whose append was pending and, when React has
    applied their append before the update, the ones that the captures
    of the step create; otherwise these join the population as they
    are created. *)
Theorem useFrame_retirement `{Host} (props : Props) (delta : number)
    (st : State) (w : World) (i : nat) (stream : LiquidStream) :
  enabled props = true → streams st !! i = Some stream →
  (∃ w' stream',
     streams (useFrame props delta st w).1 !! i = Some stream' ∧
     particles stream'
     = omap (streamFate props delta stream)
            (particles stream ++ (spawnParticles props delta stream w').1)) ∧
  (∀ p, streamFate props delta stream p = None
        ↔ (distanceTo (streamIntegrate props delta p).1 (targetPosition stream)
           < lit 1 10)%js
          ∨ (lifetime p < age p + delta)%js) ∧
  (∀ p p', streamFate props delta stream p = Some p' →
           age p' = (age p + delta)%js ∧ id p' = id p) ∧
  splashParticles (useFrame props delta st w).1
  = (if eagerState w
     then omap (updateSplashParticle props delta)
            (splashParticles st ++ splashQueue w
             ++ capturedSplashes props delta st w)
     else omap (updateSplashParticle props delta)
            (splashParticles st ++ splashQueue w)
          ++ capturedSplashes props delta st w) ∧
  (∀ p, updateSplashParticle props delta p = None
        ↔ (lifetime p < age p + delta)%js) ∧
  (∀ p p', updateSplashParticle props delta p = Some p' →
           age p' = (age p + delta)%js ∧ id p' = id p).
Proof.
  intros Hen Hi.
  split; [|split; [|split; [|split; [|split]]]].
  - destruct (useFrame_stream props delta st w i stream Hen Hi) as [w' Hw'].
    exists w', (updateStream props delta stream w').1.
    split; [done|]. apply updateStream_particles.
  - intros p. exact (streamFate_None props delta stream p).
  - intros p p' Hp. by apply streamFate_Some in Hp as (? & ? & _).
  - destruct (useFrame_enabled props delta st w Hen) as [_ ->].
    unfold splashStep, updateSplashParticles.
    destruct (eagerState w); [|done]. by rewrite <- app_assoc.
  - intros p. exact (updateSplashParticle_None props delta p).
  - intros p p' Hp. by apply updateSplashParticle_Some in Hp as (? & ? & _).
Qed.

(** A step in which the last particle of a stream is captured and
    splashes, and React applies the append after the update: the
    stream is left without particles and the three particles of the
    splash are the splash population. *)
Lemma useFrame_retirement_witness :
  (∃ w' stream',
     streams (@useFrame lazyHost defaultProps (lit 16 1000)
                (mkState [sinkingStream] []) world0).1 !! 0 = Some stream' ∧
     particles stream'
     = omap (@streamFate lazyHost defaultProps (lit 16 1000) sinkingStream)
            (particles sinkingStream
             ++ (@spawnParticles lazyHost defaultProps (lit 16 1000)
                   sinkingStream w').1)) ∧
  splashParticles (@useFrame lazyHost defaultProps (lit 16 1000)
                     (mkState [sinkingStream] []) world0).1
  = @capturedSplashes lazyHost defaultProps (lit 16 1000)
      (mkState [sinkingStream] []) world0.
Proof.
  destruct (@useFrame_retirement lazyHost defaultProps (lit 16 1000)
              (mkState [sinkingStream] []) world0 0 sinkingStream)
    as (Hstream & _ & _ & Hsplash & _).
  - reflexivity.
  - reflexivity.
  - split; [exact Hstream | exact Hsplash].
Defined.

(** The example of the specification: a particle of lifetime 1.0 is
    still there after a step of 0.6 and gone after a second one, in a
    stream as among the splash particles. *)
Example retirement_by_age :
  let p := particleAt (mkVector3 (lit 0 1) (lit 5 1) (lit 0 1)) (lit 1 1) (lit 0 1) in
  let step1 := (@useFrame sampleHost defaultProps (lit 6 10)
                  (mkState [drainingStream p] [p]) world0).1 in
  let step2 := (@useFrame sampleHost defaultProps (lit 6 10) step1 world0).1 in
  (length <$> (particles <$> streams step1) = [1] ∧
   length (splashParticles step1) = 1) ∧
  (particles <$> streams step2 = [[]] ∧ splashParticles step2 = []).
Proof. repeat split; vm_compute; reflexivity. Qed.

(** The retirement follows the arithmetic of the host.  A splash
    particle of age [0.1] and lifetime [0.3] goes in a step of [0.2]
    when the sum is rounded as binary64 rounds it, and stays when it is
    not rounded. *)
Example retirement_rounding :
  @updateSplashParticle binary64Arith defaultProps (@decimal binary64Arith 2 10)
    (particleAt (mkVector3 (lit 0 1) (lit 5 1) (lit 0 1))
       (@decimal binary64Arith 3 10) (@decimal binary64Arith 1 10))
  = None ∧
  is_Some (updateSplashParticle defaultProps (lit 2 10)
             (particleAt (mkVector3 (lit 0 1) (lit 5 1) (lit 0 1))
                (lit 3 10) (lit 1 10))).
Proof.
  split; [vm_compute; reflexivity|].
  apply bool_decide_eq_true_1 with (Decision0 := decide _).
  vm_compute. reflexivity.
Qed.

(** The capture of the last particle of [sinkingStream] splashes: the
    stream is left empty and three particles are created. *)
Example capture_splashes :
  particles <$> streams (@useFrame lazyHost defaultProps (lit 16 1000)
                           (mkState [sinkingStream] []) world0).1 = [[]] ∧
  length (@capturedSplashes lazyHost defaultProps (lit 16 1000)
            (mkState [sinkingStream] []) world0) = 3.
Proof. split; vm_compute; reflexivity. Qed.

(** *** Splash particles and the ground *)


Lemma not_lt_zero `{Arith} (a : number) :
  isNaN a = false → (a <? lit 0 1)%js = false → (lit 0 1 <= a)%js.
Proof. unfold lit. intros; num_cases; qc_lra. Qed.

(** What the test of the ground does to a surviving splash particle:
    below the plane, the height is set to 0, the vertical velocity is
    zeroed and the velocity is halved. *)
Lemma updateSplashParticle_ground `{Arith} (props : Props) (delta : number)
    (p q : LiquidParticle) :
  updateSplashParticle props delta p = Some q →
  let pos := (splashIntegrate props delta p).1 in
  let vel := (splashIntegrate props delta p).2 in
  ((y pos < lit 0 1)%js →
     position q = Vec.set_y pos (lit 0 1) ∧
     velocity q = Vec.multiplyScalar (Vec.set_y vel (lit 0 1)) (lit 5 10)) ∧
  ((y pos <? lit 0 1)%js = false → position q = pos ∧ velocity q = vel).
Proof.
  unfold updateSplashParticle.
  destruct (splashIntegrate props delta p) as [pos vel]; cbn [fst snd].
  destruct (js_lt (y pos) (lit 0 1)) eqn:Hground;
    destruct (js_gt _ _); try done; intros [= <-]; cbn [position velocity].
  - split; [|done]. by intros _.
  - split; [|done]. unfold num_lt. by rewrite Hground.
Qed.

(** With the arithmetic that does not round, the height after a step
    is a number as soon as the height, the vertical velocity, the
    vertical gravity and the duration are. *)
Lemma updateSplashParticle_numeric (props : Props) (delta : number)
    (p q : LiquidParticle) :
  isNaN (y (position p)) = false → isNaN (y (velocity p)) = false →
  isNaN (y (gravity props)) = false → isNaN delta = false →
  updateSplashParticle props delta p = Some q →
  isNaN (y (position q)) = false.
Proof.
  intros Hpos Hvel Hg Hdelta Hstep.
  destruct (updateSplashParticle_ground props delta p q Hstep) as [Hhit Hmiss].
  destruct (js_lt (y (splashIntegrate props delta p).1) (lit 0 1)) eqn:Hground.
  - by destruct (Hhit Hground) as [-> _].
  - destruct (Hmiss eq_refl) as [-> _].
    unfold splashIntegrate; simpl.
    destruct (y (position p)), (y (velocity p)), (y (gravity props)), delta;
      done.
Qed.

(** A splash particle that went through the update of a step is not
    below the ground plane. *)
Lemma updateSplashParticle_above `{Arith} (props : Props) (delta : number)
    (p q : LiquidParticle) :
  updateSplashParticle props delta p = Some q →
  (y (position q) <? lit 0 1)%js = false ∧
  (isNaN (y (position q)) = false → (lit 0 1 <= y (position q))%js).
Proof.
  intros Hstep.
  destruct (updateSplashParticle_ground props delta p q Hstep) as [Hhit Hmiss].
  assert ((y (position q) <? lit 0 1)%js = false) as Hnot.
  { destruct (js_lt (y (splashIntegrate props delta p).1) (lit 0 1)) eqn:Hground.
    - destruct (Hhit Hground) as [-> _]. reflexivity.
    - destruct (Hmiss eq_refl) as [-> _]. exact Hground. }
  split; [exact Hnot|]. intros Hnum. by apply not_lt_zero.
Qed.

(** C7, as stated, fails in two ways.  A splash particle whose height
    is [NaN] keeps it: the test [y < 0] is false of [NaN].  And when
    React applies the append of a splash after the update of the
    frame, the particles that a capture below the ground plane creates
    are in the population after the step at the height of the capture
    point. *)
Lemma splash_below_ground :
  ¬ @splashAboveGround sampleHost defaultProps (lit 1 10)
      (mkState [] [particleAt (mkVector3 (lit 0 1) NaN (lit 0 1))
                              (lit 1 1) (lit 0 1)])
      world0 ∧
  ¬ @splashAboveGround lazyHost defaultProps (lit 16 1000)
      (mkState [sinkingStream] []) world0.
Proof.
  split; intros Hclaim; unfold splashAboveGround in Hclaim.
  - remember (splashParticles
                (@useFrame sampleHost defaultProps (lit 1 10)
                   (mkState [] [particleAt (mkVector3 (lit 0 1) NaN (lit 0 1))
                                           (lit 1 1) (lit 0 1)])
                   world0).1) as l eqn:Hl.
    vm_compute in Hl. subst l.
    specialize (Hclaim _ (list_elem_of_here _ _)).
    vm_compute in Hclaim. discriminate.
  - remember (splashParticles
                (@useFrame lazyHost defaultProps (lit 16 1000)
                   (mkState [sinkingStream] []) world0).1) as l eqn:Hl.
    vm_compute in Hl. subst l.
    specialize (Hclaim _ (list_elem_of_here _ _)).
    vm_compute in Hclaim. discriminate.
Qed.

(** C7 (amended): after a simulation step a splash particle either has
    gone through the update of the step, and then it is not below the
    ground plane: its height is [>= 0] as soon as it is a number, and
    a particle whose integrated position is below the plane is put at
    [y = 0] with its vertical velocity zeroed and its velocity halved;
    or it was created by a capture of the step and appended after the
    update, as it was created. *)
Theorem splash_above_ground `{Host} (props : Props) (delta : number)
    (st : State) (w : World) (q : LiquidParticle) :
  enabled props = true →
  q ∈ splashParticles (useFrame props delta st w).1 →
  (eagerState w = false ∧ q ∈ capturedSplashes props delta st w) ∨
  ∃ p,
    p ∈ splashParticles st ++ splashQueue w
        ++ (if eagerState w then capturedSplashes props delta st w else []) ∧
    updateSplashParticle props delta p = Some q ∧
    (y (position q) <? lit 0 1)%js = false ∧
    (isNaN (y (position q)) = false → (lit 0 1 <= y (position q))%js) ∧
    let pos := (splashIntegrate props delta p).1 in
    let vel := (splashIntegrate props delta p).2 in
    ((y pos < lit 0 1)%js →
       position q = Vec.set_y pos (lit 0 1) ∧
       velocity q = Vec.multiplyScalar (Vec.set_y vel (lit 0 1)) (lit 5 10)).
Proof.
  intros Hen Hq.
  destruct (useFrame_enabled props delta st w Hen) as [_ Hsplash].
  rewrite Hsplash in Hq. unfold splashStep, updateSplashParticles in Hq.
  assert (∀ l : list LiquidParticle,
             q ∈ omap (updateSplashParticle props delta) l →
               ∃ p, p ∈ l ∧ updateSplashParticle props delta p = Some q ∧
                    (y (position q) <? lit 0 1)%js = false ∧
                    (isNaN (y (position q)) = false →
                     (lit 0 1 <= y (position q))%js) ∧
                    ((y (splashIntegrate props delta p).1 < lit 0 1)%js →
                     position q
                     = Vec.set_y (splashIntegrate props delta p).1 (lit 0 1) ∧
                     velocity q
                     = Vec.multiplyScalar
                         (Vec.set_y (splashIntegrate props delta p).2 (lit 0 1))
                         (lit 5 10))) as Hupdated.
  { intros l (p & Hp & Hstep)%list_elem_of_omap.
    destruct (updateSplashParticle_above props delta p q Hstep) as [Hnot Hge].
    destruct (updateSplashParticle_ground props delta p q Hstep) as [Hhit _].
    exists p. split; [done|]. split; [done|]. split; [done|].
    split; [exact Hge | exact Hhit]. }
  destruct (eagerState w).
  - right. rewrite <- app_assoc in Hq. by apply Hupdated.
  - apply elem_of_app in Hq as [Hq|Hq]; [|by left].
    right. rewrite app_nil_r. by apply Hupdated.
Qed.

Lemma splash_above_ground_witness :
  ∃ q, q ∈ splashParticles
             (@useFrame sampleHost defaultProps (lit 1 10)
                (mkState [] [particleAt (mkVector3 (lit 0 1) (lit 1 100) (lit 0 1))
                                        (lit 1 1) (lit 0 1)])
                world0).1 ∧
       (lit 0 1 <= y (position q))%js.
Proof.
  exists (mkLiquidParticle "particle-0"
            (mkVector3 (lit 0 1) (lit 0 1) (lit 0 1))
            (mkVector3 (lit 0 1) (lit 0 1) (lit 0 1))
            "#4ade80" (lit 2 100) (lit 1 1) (lit 1 10) true).
  assert (mkLiquidParticle "particle-0"
            (mkVector3 (lit 0 1) (lit 0 1) (lit 0 1))
            (mkVector3 (lit 0 1) (lit 0 1) (lit 0 1))
            "#4ade80" (lit 2 100) (lit 1 1) (lit 1 10) true
          ∈ splashParticles
              (@useFrame sampleHost defaultProps (lit 1 10)
                 (mkState [] [particleAt (mkVector3 (lit 0 1) (lit 1 100) (lit 0 1))
                                         (lit 1 1) (lit 0 1)])
                 world0).1) as Hin.
  { apply bool_decide_eq_true_1 with (Decision0 := decide _).
    vm_compute. reflexivity. }
  split; [exact Hin|].
  destruct (@splash_above_ground sampleHost defaultProps (lit 1 10) _ world0 _
              eq_refl Hin) as [[Heager _]|(p & _ & _ & _ & Hge & _)].
  - discriminate Heager.
  - apply Hge. reflexivity.
Defined.

(** A particle that falls from 1 cm above the ground lands on it. *)
Example splash_lands :
  (position <$> updateSplashParticles defaultProps (lit 1 10)
     [particleAt (mkVector3 (lit 0 1) (lit 1 100) (lit 0 1)) (lit 1 1) (lit 0 1)])
  = [mkVector3 (lit 0 1) (lit 0 1) (lit 0 1)].
Proof.
  apply bool_decide_eq_true_1 with (Decision0 := decide _).
  vm_compute. reflexivity.
Qed.

(** *** Streams that stopped pouring *)

Lemma updateStream_idle `{Host} (props : Props) (delta : number)
    (s : LiquidStream) (w : World) :
  isActive s = false → particles s = [] →
  updateStream props delta s w = (s, w).
Proof. unfold updateStream. by intros -> ->. Qed.

(** C8, as stated, fails: the step maps an inactive stream without
    particles to itself, and the stream stays in the list. *)
Lemma useFrame_keeps_idle :
  ¬ @stepRemovesIdle sampleHost defaultProps (lit 16 1000)
      (mkState [idleStream "stream-0"] []) world0.
Proof.
  intros Hclaim.
  apply (Hclaim (idleStream "stream-0")); [|done..|].
  - apply list_elem_of_here.
  - vm_compute. apply list_elem_of_here.
Qed.

(** C8 (amended): a simulation step leaves a stream whose active flag
    is false and whose particle set is empty in the live set, unchanged
    and at its index; the stream leaves the live set when the timer of
    [stopPour(id)] fires, whose filter keeps exactly the streams with
    another id. *)
Theorem idle_stream_kept `{Host} (props : Props) (delta : number) (st : State)
    (w : World) (i : nat) (s : LiquidStream) :
  streams st !! i = Some s → isActive s = false → particles s = [] →
  streams (useFrame props delta st w).1 !! i = Some s ∧
  (∀ s', s' ∈ streams (stopPour_expired (stream_id s) st)
         ↔ s' ∈ streams st ∧ stream_id s' ≠ stream_id s) ∧
  s ∉ streams (stopPour_expired (stream_id s) st).
Proof.
  intros Hi Hact Hempty.
  assert (∀ s', s' ∈ streams (stopPour_expired (stream_id s) st)
                ↔ s' ∈ streams st ∧ stream_id s' ≠ stream_id s) as Hfilter.
  { intros s'. unfold stopPour_expired, stopPour_timeout; simpl.
    rewrite list_elem_of_filter. tauto. }
  split; [|split; [done|]].
  - destruct (enabled props) eqn:Hen.
    + destruct (useFrame_stream props delta st w i s Hen Hi) as [w' Hw'].
      by rewrite updateStream_idle in Hw'.
    + unfold useFrame. by rewrite Hen.
  - intros Hin. by apply Hfilter in Hin as [_ Hne].
Qed.

Lemma idle_stream_kept_witness :
  streams (@useFrame sampleHost defaultProps (lit 16 1000)
             (mkState [idleStream "stream-0"] []) world0).1 !! 0
  = Some (idleStream "stream-0") ∧
  idleStream "stream-0"
  ∉ streams (stopPour_expired "stream-0" (mkState [idleStream "stream-0"] [])).
Proof.
  destruct (@idle_stream_kept sampleHost defaultProps (lit 16 1000)
              (mkState [idleStream "stream-0"] []) world0 0
              (idleStream "stream-0"))
    as (Hkept & _ & Hgone).
  - reflexivity.
  - reflexivity.
  - reflexivity.
  - split; [exact Hkept | exact Hgone].
Defined.

Lemma stopPour_deactivate_absent (streamId : string) (prev : list LiquidStream) :
  streamId ∉ stream_id <$> prev → stopPour_deactivate streamId prev = prev.
Proof.
  unfold stopPour_deactivate. induction prev as [|s prev IH]; [done|].
  rewrite !fmap_cons, not_elem_of_cons. intros [Hne Hnotin].
  rewrite decide_False by done. f_equal. by apply IH.
Qed.

Lemma stopPour_timeout_absent (streamId : string) (prev : list LiquidStream) :
  streamId ∉ stream_id <$> prev → stopPour_timeout streamId prev = prev.
Proof.
  unfold stopPour_timeout. induction prev as [|s prev IH]; [done|].
  rewrite fmap_cons, not_elem_of_cons. intros [Hne Hnotin].
  rewrite filter_cons_True by done. f_equal. by apply IH.
Qed.

(** C10: for a stream id that no live stream carries, [stopPour] leaves
    the list of streams as it is, at the call, where no stream is
    marked inactive, and when its timer fires, where the filter removes
    nothing. *)
Theorem stopPour_unknown_stream (streamId : string) (st : State) :
  streamId ∉ stream_id <$> streams st →
  stopPour streamId st = st ∧
  stopPour_expired streamId st = st ∧
  stopPour_expired streamId (stopPour streamId st) = st.
Proof.
  intros Hnotin. destruct st as [ss sp]; simpl in *.
  unfold stopPour, stopPour_expired; simpl.
  rewrite stopPour_deactivate_absent, stopPour_timeout_absent by done.
  done.
Qed.

Lemma stopPour_unknown_stream_witness :
  stopPour "stream-7" (mkState [idleStream "stream-0"] [])
  = mkState [idleStream "stream-0"] [] ∧
  stopPour_expired "stream-7" (mkState [idleStream "stream-0"] [])
  = mkState [idleStream "stream-0"] [] ∧
  stopPour_expired "stream-7"
    (stopPour "stream-7" (mkState [idleStream "stream-0"] []))
  = mkState [idleStream "stream-0"] [].
Proof.
  apply (stopPour_unknown_stream "stream-7"
           (mkState [idleStream "stream-0"] [])).
  simpl. intros Hin. apply list_elem_of_singleton in Hin. discriminate.
Defined.

End LiquidSystemSpec.

(** ** More on the reaction lookup *)

Module ReactionLogicFacts.
Import ReactionLogic ReactionLogicSpec.

(** The entry of a key is the result of the last experiment that
    carries the key. *)
Lemma generate_lookup (experiments : list Experiment) (key : string) :
  generateReactionLogic experiments !! key
  = (fun e => reactionOf (category e))
      <$> last (filter (fun e => id e = key) experiments).
Proof.
  induction experiments as [|e experiments IH] using rev_ind; [done|].
  rewrite generate_snoc, filter_app.
  destruct (decide (id e = key)) as [Heq|Hne].
  - rewrite filter_cons_True, filter_nil by done.
    rewrite last_snoc, Heq. simpl. apply lookup_insert_eq.
  - rewrite filter_cons_False, filter_nil, app_nil_r by done.
    by rewrite lookup_insert_ne.
Qed.

Lemma filter_none {A} (P : A → Prop) `{!∀ a, Decision (P a)} (l : list A) :
  (∀ a, a ∈ l → ¬ P a) → filter P l = [].
Proof.
  induction l as [|a l IH]; intros Hl; [done|].
  rewrite filter_cons_False by (apply Hl, list_elem_of_here).
  apply IH. intros a' Ha'. apply Hl. by apply list_elem_of_further.
Qed.

(** A key has an entry exactly when an experiment carries it. *)
Lemma generate_is_Some (experiments : list Experiment) (key : string) :
  is_Some (generateReactionLogic experiments !! key)
  ↔ ∃ e, key = id e ∧ e ∈ experiments.
Proof.
  rewrite generate_lookup, fmap_is_Some, last_is_Some. split.
  - intros Hne. destruct (filter _ experiments) as [|e l] eqn:Hf; [done|].
    assert (e ∈ filter (fun e => id e = key) experiments) as Hin.
    { rewrite Hf. apply list_elem_of_here. }
    apply list_elem_of_filter in Hin as [Hid Hin]. by exists e.
  - intros (e & -> & Hin) Hnil.
    assert (e ∈ filter (fun e' => id e' = id e) experiments) as Hin'.
    { by apply list_elem_of_filter. }
    rewrite Hnil in Hin'. by apply elem_of_nil in Hin'.
Qed.

(** X1: reading the generated table at a key gives a stored result
    exactly when the key is the id of an experiment of the list; at
    every other key the read gives [undefined] or something the table
    inherits, never a result. *)
Theorem generateReactionLogic_entries (experiments : list Experiment)
    (key : string) :
  (∃ r, get (generateReactionLogic experiments) key = Result r)
  ↔ key ∈ id <$> experiments.
Proof.
  rewrite list_elem_of_fmap, <- generate_is_Some. unfold is_Some.
  split; intros [r Hr]; exists r; by apply get_Result.
Qed.

(** The table of an experiment with the id ["__proto__"] answers this
    id with the result, the fields of a result with the fields of this
    result, and an id that nobody knows with [undefined]. *)
Example get_proto :
  let logic := generateReactionLogic [sample "__proto__" "combustion"] in
  get logic "__proto__" = Result (reactionOf "combustion") ∧
  get logic "outcomeText" = Text "Combustion reaction occurred" ∧
  get logic "valueOf" = Builtin "valueOf" ∧
  get logic "e1" = Undefined.
Proof. repeat split; reflexivity. Qed.

(** With distinct ids at most one experiment carries a key. *)
Lemma filter_id_unique (experiments : list Experiment) (key : string) :
  NoDup (id <$> experiments) →
  length (filter (fun e => id e = key) experiments) ≤ 1.
Proof.
  induction experiments as [|e experiments IH]; [simpl; lia|].
  rewrite fmap_cons, NoDup_cons. intros [Hnotin Hnd].
  destruct (decide (id e = key)) as [Heq|Hne].
  - rewrite filter_cons_True by done. simpl.
    rewrite filter_none; [simpl; lia|].
    intros e' Hin Heq'. apply Hnotin.
    rewrite Heq, <- Heq'. by apply list_elem_of_fmap_2.
  - rewrite filter_cons_False by done. by apply IH.
Qed.

(** X2: when the ids are pairwise distinct, the generated table does
    not depend on the order of the experiments. *)
Theorem generateReactionLogic_order (experiments experiments' : list Experiment) :
  NoDup (id <$> experiments) → experiments ≡ₚ experiments' →
  generateReactionLogic experiments = generateReactionLogic experiments'.
Proof.
  intros Hnd Hperm. apply map_eq. intros key.
  rewrite !generate_lookup. f_equal. f_equal.
  assert (filter (fun e => id e = key) experiments
          ≡ₚ filter (fun e => id e = key) experiments') as Hf.
  { by rewrite Hperm. }
  pose proof (filter_id_unique experiments key Hnd) as Hlen.
  destruct (filter (fun e => id e = key) experiments) as [|e [|e2 l]];
    simpl in Hlen; [| |lia].
  - by apply Permutation_nil_l in Hf.
  - by apply Permutation_singleton_l in Hf.
Qed.

Lemma generateReactionLogic_order_witness :
  generateReactionLogic [sample "e1" "acid-base"; sample "e2" "combustion"]
  = generateReactionLogic [sample "e2" "combustion"; sample "e1" "acid-base"].
Proof.
  apply generateReactionLogic_order.
  - apply bool_decide_eq_true_1 with (Decision0 := decide _).
    vm_compute. reflexivity.
  - apply Permutation_swap.
Defined.

(** X3: on a generated table, the trigger check with at least two
    chemical ids never comes back empty for the id of an experiment of
    the list: it returns the documented result of an experiment of the
    list with this id. *)
Theorem checkReactionTrigger_generated (experiments : list Experiment)
    (chemicalIds : list string) (exp : Experiment) :
  exp ∈ experiments → 2 ≤ length chemicalIds →
  ∃ e r, e ∈ experiments ∧ id e = id exp ∧
         checkReactionTrigger chemicalIds (generateReactionLogic experiments) (id exp)
         = Some (Result r) ∧
         documented (category e) r.
Proof.
  intros Hin Hlen.
  destruct (proj2 (generate_is_Some experiments (id exp)))
    as [r Hr]; [by exists exp|].
  pose proof Hr as Hlast. rewrite generate_lookup in Hlast.
  apply fmap_Some in Hlast as (e & Hlast & ->).
  assert (e ∈ filter (fun e' => id e' = id exp) experiments) as He.
  { destruct (filter _ experiments) as [|a l] using rev_ind; [done|].
    rewrite last_snoc in Hlast. injection Hlast as ->.
    apply elem_of_app. right. apply list_elem_of_here. }
  apply list_elem_of_filter in He as [Hid He].
  exists e, (reactionOf (category e)). repeat split; [done..| |].
  - by apply checkReactionTrigger_stored.
  - apply reactionOf_documented.
Qed.

Lemma checkReactionTrigger_generated_witness :
  ∃ e r, e ∈ [sample "e1" "Acid-Base"] ∧ id e = "e1" ∧
         checkReactionTrigger ["HCl"; "NaOH"]
           (generateReactionLogic [sample "e1" "Acid-Base"]) "e1"
         = Some (Result r) ∧
         documented (category e) r.
Proof.
  apply (checkReactionTrigger_generated [sample "e1" "Acid-Base"]
           ["HCl"; "NaOH"] (sample "e1" "Acid-Base")).
  - apply list_elem_of_here.
  - simpl. lia.
Defined.

(** X4: every result of a generated table carries exactly one effect,
    of type color-change, precipitation or heat-release, with an
    intensity between 0.7 and 1. *)
Theorem generateReactionLogic_effects (experiments : list Experiment)
    (key : string) (r : ReactionResult) :
  generateReactionLogic experiments !! key = Some r →
  ∃ eff, effects r = [eff] ∧
         type eff ∈ ["color-change"; "precipitation"; "heat-release"] ∧
         (lit 7 10 <= intensity eff)%js ∧ (intensity eff <= lit 1 1)%js.
Proof.
  rewrite generate_lookup. intros Hr.
  apply fmap_Some in Hr as (e & _ & ->).
  unfold reactionOf. repeat case_decide; eexists; (split; [reflexivity|]);
    simpl; (split; [set_solver | split; vm_compute; reflexivity]).
Qed.

Lemma generateReactionLogic_effects_witness :
  ∃ eff, effects (reactionOf "combustion") = [eff] ∧
         type eff ∈ ["color-change"; "precipitation"; "heat-release"] ∧
         (lit 7 10 <= intensity eff)%js ∧ (intensity eff <= lit 1 1)%js.
Proof.
  apply (generateReactionLogic_effects [sample "e1" "combustion"] "e1").
  reflexivity.
Defined.

End ReactionLogicFacts.

(** ** More on the containers *)

Module BeakerFacts.
Import Beaker.

Lemma run_cons (e : Event) (events : list Event) (st : State) :
  run (e :: events) st = run events (step st e).
Proof. reflexivity. Qed.

Lemma useFrame_pour_idle (mounted : bool) (r : number) (st : State) :
  isPouring st = false → useFrame_pour mounted r st = st.
Proof. unfold useFrame_pour. intros ->. by rewrite andb_false_r. Qed.

Lemma useFrame_pour_cases (mounted : bool) (r : number) (st : State) :
  useFrame_pour mounted r st = st
  ∨ (isPouring st = true ∧ useFrame_pour mounted r st = handlePourEnd pourRate st).
Proof.
  unfold useFrame_pour.
  destruct mounted, (isPouring st), (js_gt _ _), (js_lt _ _); auto.
Qed.

Lemma frames_idle (rs : list number) (st : State) :
  isPouring st = false → run (Frame <$> rs) st = st.
Proof.
  induction rs as [|r rs IH]; intros Hidle; [done|].
  rewrite fmap_cons, run_cons. cbn [step].
  rewrite useFrame_pour_idle by done. by apply IH.
Qed.

(** X5: frames alone take the pour rate out of a beaker at most once:
    after any number of frames the volume is the one before, or the
    beaker was pouring, has stopped, and has lost [pourRate]. *)
Theorem useFrame_pour_once (rs : list number) (st : State) :
  currentVolume (run (Frame <$> rs) st) = currentVolume st
  ∨ (isPouring st = true ∧
     isPouring (run (Frame <$> rs) st) = false ∧
     currentVolume (run (Frame <$> rs) st)
     = Math_max (lit 0 1) (currentVolume st - pourRate)%js).
Proof.
  induction rs as [|r rs IH]; [by left|].
  rewrite fmap_cons, run_cons. cbn [step].
  destruct (isPouring st) eqn:Hp.
  - unfold useFrame_pour. rewrite Hp. cbn [andb].
    destruct (js_gt (currentVolume st) (lit 0 1)); [|exact IH].
    destruct (js_lt r (lit 3 10)); [|exact IH].
    right. split; [done|]. by rewrite frames_idle.
  - left. rewrite useFrame_pour_idle by done. by rewrite frames_idle.
Qed.

Lemma afterPour_bounds (k : nat) (v : number) :
  (lit 0 1 <= v)%js →
  (lit 0 1 <= Nat.iter k afterPour v)%js ∧ (Nat.iter k afterPour v <= v)%js.
Proof.
  intros Hv. induction k as [|k [IH0 IH1]].
  - split; [done|]. simpl. unfold lit in *. num_cases; qc_lra.
  - rewrite Nat.iter_succ. set (w := Nat.iter k afterPour v) in *. clearbody w.
    unfold afterPour, pourRate, lit in *. num_cases; split; qc_lra.
Qed.

(** X6: whatever the double clicks and frames, the volume of a beaker
    is the one that [k] pour-end events of [pourRate] leave, with [k]
    at most the number of double clicks, plus one if the beaker was
    pouring at the start; so it never rises and never falls below 0. *)
Theorem run_volume (events : list Event) (st : State) :
  (lit 0 1 <= currentVolume st)%js →
  (∃ k, k ≤ doubleClicks events + Nat.b2n (isPouring st) ∧
        currentVolume (run events st) = Nat.iter k afterPour (currentVolume st)) ∧
  (lit 0 1 <= currentVolume (run events st))%js ∧
  (currentVolume (run events st) <= currentVolume st)%js.
Proof.
  intros Hpos.
  assert (∃ k, k ≤ doubleClicks events + Nat.b2n (isPouring st) ∧
               currentVolume (run events st)
               = Nat.iter k afterPour (currentVolume st)) as (k & Hk & Hvol).
  { clear Hpos. revert st.
    induction events as [|e events IH]; intros st.
    { exists 0. split; [lia|done]. }
    rewrite run_cons. destruct (IH (step st e)) as (k & Hk & Hvol).
    destruct e as [|r]; cbn [step] in *.
    - exists k. split; [|rewrite Hvol; f_equal].
      + unfold doubleClicks in *. simpl.
        destruct (isPouring (handlePourStart st)), (isPouring st); simpl in *; lia.
      + unfold handlePourStart. by destruct (_ && _).
    - unfold doubleClicks in *. simpl.
      destruct (useFrame_pour_cases true r st) as [Heq|[Hp Heq]];
        rewrite Heq in Hk, Hvol |- *; [by exists k|].
      exists (S k). rewrite Hp. split; [simpl in *; lia|].
      rewrite Hvol. by rewrite Nat.iter_succ_r. }
  split; [by exists k|]. rewrite Hvol. by apply afterPour_bounds.
Qed.

Lemma run_volume_witness :
  (lit 0 1 <= currentVolume
                (run [DoubleClick; Frame (lit 1 10); Frame (lit 1 10); DoubleClick]
                     (mkState false (lit 3 1))))%js ∧
  (currentVolume
     (run [DoubleClick; Frame (lit 1 10); Frame (lit 1 10); DoubleClick]
          (mkState false (lit 3 1))) <= lit 3 1)%js.
Proof.
  destruct (run_volume
              [DoubleClick; Frame (lit 1 10); Frame (lit 1 10); DoubleClick]
              (mkState false (lit 3 1))) as (_ & H0 & H1).
  - reflexivity.
  - split; [exact H0 | exact H1].
Defined.

(** A double click, two frames in which the random number is below
    0.3, and a further double click: a beaker of 3 mL keeps 1 mL. *)
Example run_one_gesture :
  run [DoubleClick; Frame (lit 1 10); Frame (lit 1 10); DoubleClick]
      (mkState false (lit 3 1))
  = mkState true (lit 1 1).
Proof.
  apply bool_decide_eq_true_1 with (Decision0 := decide _).
  vm_compute. reflexivity.
Qed.

Lemma ratio_bounds (c m : Qc) :
  (0 <= c)%Qc → (c <= m)%Qc → (0 < m)%Qc → (0 <= c / m)%Qc ∧ (c / m <= 1)%Qc.
Proof.
  intros H0 H1 Hm.
  unfold Qcle, Qclt, Qcdiv, Qcmult, Qcinv, Q2Qc in *. cbn [this] in *.
  rewrite !Qred_correct in *. split.
  - apply Qmult_le_0_compat; [done|]. apply Qinv_le_0_compat. lra.
  - change (c * / m)%Q with (c / m)%Q. apply Qle_shift_div_r; lra.
Qed.

Lemma round_percent (q : Qc) :
  (0 <= q)%Qc → (q <= 1)%Qc →
  (0 ≤ Qfloor (q * Q2Qc (100 # 1) + Q2Qc (1 # 2))%Qc ≤ 100)%Z.
Proof.
  intros H0 H1.
  assert ((q * Q2Qc (100 # 1) + Q2Qc (1 # 2))%Qc == q * 100 + (1 # 2))%Q as Heq.
  { unfold Qcplus, Qcmult, Q2Qc; cbn [this]. rewrite !Qred_correct. reflexivity. }
  rewrite Heq. unfold Qcle, Q2Qc in *. cbn [this] in *.
  rewrite ?Qred_correct in *. split.
  - apply Z.le_trans with (Qfloor 0); [done | apply Qfloor_resp_le; lra].
  - apply Z.le_trans with (Qfloor (201 # 2)); [apply Qfloor_resp_le; lra | done].
Qed.

(** X7: without the legacy [fillLevel] prop, and with a volume between
    0 and a positive capacity, the fill percentage that a click shows
    is an integer between 0 and 100. *)
Theorem fillPercentage_range (maxVolume : number) (st : State) :
  (lit 0 1 <= currentVolume st)%js →
  (currentVolume st <= maxVolume)%js →
  (lit 0 1 < maxVolume)%js →
  ∃ n : Z, (0 ≤ n ≤ 100)%Z ∧
           fillPercentage None maxVolume st = Num (Q2Qc (inject_Z n)).
Proof.
  destruct st as [pouring [|c]], maxVolume as [|m]; simpl; try done.
  unfold num_le, num_lt, lit; simpl.
  intros H0%bool_decide_eq_true_1 H1%bool_decide_eq_true_1
         Hm%bool_decide_eq_true_1.
  destruct (ratio_bounds c m H0 H1 Hm) as [Hq0 Hq1].
  unfold fillPercentage, normalizedFillLevel, js_div, lit; simpl.
  destruct (decide (m = Q2Qc 0)) as [->|_]; [by vm_compute in Hm|].
  exists (Qfloor ((c / m) * Q2Qc (100 # 1) + Q2Qc (1 # 2))%Qc).
  split; [exact (round_percent (c / m)%Qc Hq0 Hq1) | reflexivity].
Qed.

Lemma fillPercentage_range_witness :
  ∃ n : Z, (0 ≤ n ≤ 100)%Z ∧
           fillPercentage None (lit 250 1) (mkState false (lit 50 1))
           = Num (Q2Qc (inject_Z n)).
Proof.
  apply fillPercentage_range; vm_compute; reflexivity.
Defined.

(** The default beaker, 50 mL of 250 mL, shows 20 percent. *)
Example fillPercentage_default :
  fillPercentage None (lit 250 1) (mkState false (lit 50 1)) = lit 20 1.
Proof.
  apply bool_decide_eq_true_1 with (Decision0 := decide _).
  vm_compute. reflexivity.
Qed.

End BeakerFacts.

Module BottleFacts.
Import Bottle.

(** X8: a bottle whose cap is closed ignores double clicks and frames:
    as long as the cap is not clicked, its state, the volume included,
    stays as it is. *)
Theorem closed_cap_ignores (events : list Event) (st : State) :
  isCapOpen st = false → CapClick ∉ events → run events st = st.
Proof.
  intros Hcap. induction events as [|e events IH]; [done|].
  rewrite not_elem_of_cons. intros [Hne Hnotin].
  unfold run in *. simpl.
  assert (step st e = st) as ->; [|by apply IH].
  destruct e as [| |r]; [done| |]; simpl.
  - unfold handlePourStart. rewrite Hcap. by rewrite andb_false_r.
  - unfold useFrame_pour. rewrite Hcap. by rewrite andb_false_r.
Qed.

Lemma closed_cap_ignores_witness :
  run [DoubleClick; Frame (lit 1 10); DoubleClick] (mkState false false (lit 100 1))
  = mkState false false (lit 100 1).
Proof.
  apply closed_cap_ignores; [reflexivity|].
  intros Hin. repeat (apply elem_of_cons in Hin as [Hin|Hin]; [discriminate|]).
  by apply elem_of_nil in Hin.
Defined.

(** With the cap opened first, the same events pour [pourRate]. *)
Example open_cap_pours :
  currentVolume (run [CapClick; DoubleClick; Frame (lit 1 10); DoubleClick]
                     (mkState false false (lit 100 1)))
  = lit 99 1.
Proof.
  apply bool_decide_eq_true_1 with (Decision0 := decide _).
  vm_compute. reflexivity.
Qed.

End BottleFacts.

(** ** More on the drag-and-drop registry *)

Module DragDropFacts.
Import DragDrop DragDropSpec.

(** *** The registry *)

Lemma Map_set_keys_present {V} (k : string) (v : V) (m : list (string * V)) :
  k ∈ m.*1 → (Map_set k v m).*1 = m.*1.
Proof.
  intros Hin. unfold Map_set. rewrite bool_decide_eq_true_2 by done.
  clear Hin. induction m as [|[k0 v0] m IH]; [done|].
  rewrite !fmap_cons, IH. simpl. by case_decide; simplify_eq/=.
Qed.

Lemma Map_set_keys_absent {V} (k : string) (v : V) (m : list (string * V)) :
  k ∉ m.*1 → (Map_set k v m).*1 = m.*1 ++ [k].
Proof.
  intros Hin. unfold Map_set. rewrite bool_decide_eq_false_2 by done.
  by rewrite fmap_app.
Qed.

Lemma Map_delete_keys {V} (k : string) (m : list (string * V)) :
  (Map_delete k m).*1 = filter (fun k' => k' ≠ k) m.*1.
Proof.
  unfold Map_delete. induction m as [|[k0 v0] m IH]; [done|].
  rewrite fmap_cons. simpl. destruct (decide (k0 = k)) as [->|Hne].
  - rewrite !filter_cons_False by (simpl; tauto). exact IH.
  - rewrite !filter_cons_True by done. rewrite fmap_cons, IH. done.
Qed.

(** No key occurs twice in a registry built from the empty [Map]. *)
Lemma reachable_NoDup (m : list (string * DragObject)) :
  reachable m → NoDup m.*1.
Proof.
  induction 1 as [|m obj _ IH|m i _ IH].
  - constructor.
  - destruct (decide (id obj ∈ m.*1)) as [Hin|Hin].
    + by rewrite Map_set_keys_present.
    + rewrite Map_set_keys_absent by done.
      apply NoDup_app. split; [done|]. split; [|apply NoDup_singleton].
      intros k Hk ->%list_elem_of_singleton. done.
  - rewrite Map_delete_keys. by apply NoDup_filter.
Qed.

Lemma elem_of_Map_set_iff {V} (k k' : string) (v v' : V) (m : list (string * V)) :
  (k', v') ∈ Map_set k v m
  ↔ (k' = k ∧ v' = v) ∨ (k' ≠ k ∧ (k', v') ∈ m).
Proof.
  split.
  { intros [Heq|[Hin Hne]]%elem_of_Map_set; [left; by simplify_eq | by right]. }
  unfold Map_set. case_bool_decide as Hk.
  - intros [[-> ->]|[Hne Hin]].
    + apply list_elem_of_fmap in Hk as ([k0 v0] & Hk0 & Hin). simpl in Hk0.
      apply list_elem_of_fmap. exists (k0, v0). split; [|done].
      simpl. by rewrite decide_True.
    + apply list_elem_of_fmap. exists (k', v'). split; [|done].
      simpl. by rewrite decide_False.
  - intros [[-> ->]|[Hne Hin]]; apply elem_of_app.
    + right. apply list_elem_of_here.
    + by left.
Qed.

(** X9: in every registry built from the empty [Map] the ids are
    unique keys, and [registerObject h] makes [h] the one handle
    stored under its id, in the place of an earlier handle with this
    id if there is one, and leaves the handles under other ids as they
    are. *)
Theorem registerObject_entry (st : State) (h : DragObject) :
  reachable (registeredObjects st) →
  NoDup (registeredObjects (registerObject h st)).*1 ∧
  (∀ k d, (k, d) ∈ registeredObjects (registerObject h st)
          ↔ (k = id h ∧ d = h) ∨ (k ≠ id h ∧ (k, d) ∈ registeredObjects st)) ∧
  (registeredObjects (registerObject h st)).*1
  = (if bool_decide (id h ∈ (registeredObjects st).*1)
     then (registeredObjects st).*1
     else (registeredObjects st).*1 ++ [id h]).
Proof.
  intros Hreach. simpl. split; [|split].
  - apply reachable_NoDup. by constructor.
  - intros k d. apply elem_of_Map_set_iff.
  - case_bool_decide.
    + by apply Map_set_keys_present.
    + by apply Map_set_keys_absent.
Qed.

Lemma registerObject_entry_witness :
  (registeredObjects
     (registerObject (handle "flask" 7 None)
        (registerObject (handle "beaker" 1 None)
           (registerObject (handle "flask" 0 None)
              (mkState ∅ [] None None false "default"))))).*1
  = ["flask"; "beaker"].
Proof.
  destruct (registerObject_entry
              (registerObject (handle "beaker" 1 None)
                 (registerObject (handle "flask" 0 None)
                    (mkState ∅ [] None None false "default")))
              (handle "flask" 7 None)) as (_ & _ & Hkeys).
  - apply (reachable_register _ (handle "beaker" 1 None)).
    apply (reachable_register [] (handle "flask" 0 None)), reachable_empty.
  - etrans; [exact Hkeys | reflexivity].
Defined.

(** *** Resolving the pointer *)

(** X10: a pointer resolves to a registered handle that owns the
    nearest hit, the first such handle of the registry; it resolves to
    nothing exactly when nothing is hit or no registered handle owns
    the nearest hit. *)
Theorem resolvePointer_owner `{Host} (clientX clientY : number) (st : State) :
  (∀ d, resolvePointer clientX clientY st = Some d →
        ∃ hit hits before after,
          getIntersection clientX clientY st = hit :: hits ∧
          Map_values (registeredObjects st) = before ++ d :: after ∧
          owns st hit d = true ∧
          ∀ d', d' ∈ before → owns st hit d' = false) ∧
  (resolvePointer clientX clientY st = None
   ↔ getIntersection clientX clientY st = []
     ∨ ∃ hit hits,
         getIntersection clientX clientY st = hit :: hits ∧
         ∀ d, d ∈ Map_values (registeredObjects st) → owns st hit d = false).
Proof.
  unfold resolvePointer.
  destruct (getIntersection clientX clientY st) as [|hit hits].
  { split; [done|]. split; [by left | done]. }
  split.
  - intros d Hfind. exists hit, hits.
    induction (Map_values (registeredObjects st)) as [|d0 l IH]; [done|].
    simpl in Hfind. destruct (owns st hit d0) eqn:Hown.
    + injection Hfind as ->. exists [], l. repeat split; [done|].
      intros d' Hd'. by apply elem_of_nil in Hd'.
    + destruct (IH Hfind) as (before & after & _ & -> & Hd & Hbefore).
      exists (d0 :: before), after. repeat split; [done|].
      intros d' [->|Hd']%elem_of_cons; [done | by apply Hbefore].
  - split.
    + intros Hnone. right. exists hit, hits. split; [done|].
      intros d Hd%list_elem_of_In. by apply (find_none _ _ Hnone).
    + intros [?|(hit' & hits' & [= <- <-] & Hnone)]; [done|].
      destruct (List.find _ _) as [d|] eqn:Hfind; [|done].
      apply find_some in Hfind as [Hin%list_elem_of_In Hown].
      by rewrite (Hnone d Hin) in Hown.
Qed.

(** *** What a pointer-move leaves alone *)

(** The state after a pointer-move, case by case. *)
Lemma handleMouseMove_cases `{Host} (enabled : bool) (clientX clientY : number)
    (st : State) :
  handleMouseMove enabled clientX clientY st
  = if enabled then
      match isDragging st, draggedObject st with
      | true, Some d =>
          match dragIntersection clientX clientY with
          | Some intersection =>
              if negb (isNaN (x intersection)) && negb (isNaN (y intersection))
                 && negb (isNaN (z intersection))
              then set_scene (alter (updatePosition (fun _ => intersection))
                                    (object d)) st
              else st
          | None => st
          end
      | _, _ =>
          mkState (scene st) (registeredObjects st) (draggedObject st)
            (resolvePointer clientX clientY st) (isDragging st)
            (if match resolvePointer clientX clientY st with
                | Some o => isDraggable o
                | None => false
                end then "grab" else "default")
      end
    else st.
Proof.
  unfold handleMouseMove, handleMouseMove_call. destruct enabled; [simpl|done].
  destruct (isDragging st), (draggedObject st); try done.
  by destruct (dragIntersection clientX clientY).
Qed.

(** X11: while a handle is dragged, a pointer-move skips the hover
    resolution: the hovered handle, the cursor, the registry and the
    dragged reference stay, and no object but the dragged one is
    touched; when nothing is dragged, a pointer-move changes the
    hovered handle and the cursor only, and the cursor is [grab]
    exactly over a draggable handle. *)
Theorem handleMouseMove_frame `{Host} (enabled : bool) (clientX clientY : number)
    (st : State) :
  let st' := handleMouseMove enabled clientX clientY st in
  registeredObjects st' = registeredObjects st ∧
  draggedObject st' = draggedObject st ∧
  isDragging st' = isDragging st ∧
  (∀ d, isDragging st = true → draggedObject st = Some d →
        hoveredObject st' = hoveredObject st ∧ cursor st' = cursor st ∧
        (∀ o, o ≠ object d → scene st' !! o = scene st !! o) ∧
        children <$> scene st' !! object d = children <$> scene st !! object d) ∧
  (isDragging st = false ∨ draggedObject st = None →
   scene st' = scene st ∧
   (enabled = true →
    hoveredObject st' = resolvePointer clientX clientY st ∧
    (cursor st' = "grab"
     ↔ ∃ d, resolvePointer clientX clientY st = Some d ∧ isDraggable d = true))).
Proof.
  intros st'.
  assert (registeredObjects st' = registeredObjects st ∧
          draggedObject st' = draggedObject st ∧
          isDragging st' = isDragging st) as (Hreg & Hdr & Hdg).
  { unfold st'. rewrite handleMouseMove_cases. destruct enabled; [|done].
    destruct (isDragging st) eqn:E1, (draggedObject st) eqn:E2; simpl;
      rewrite ?E1, ?E2; try done.
    destruct (dragIntersection clientX clientY) as [v|]; [|by rewrite ?E1, ?E2].
    destruct (negb _ && negb _ && negb _); simpl; by rewrite ?E1, ?E2. }
  split; [done|]. split; [done|]. split; [done|]. split.
  - intros d Hdrag Hd. unfold st'. rewrite handleMouseMove_cases.
    destruct enabled; [|done]. rewrite Hdrag, Hd.
    destruct (dragIntersection clientX clientY) as [v|]; [|done].
    destruct (negb _ && negb _ && negb _); [simpl|done].
    split; [done|]. split; [done|]. split.
    + intros o Ho. by rewrite lookup_alter_ne.
    + rewrite lookup_alter_eq. by destruct (scene st !! object d).
  - intros Hidle.
    assert (st' = if enabled
                  then mkState (scene st) (registeredObjects st) (draggedObject st)
                         (resolvePointer clientX clientY st) (isDragging st)
                         (if match resolvePointer clientX clientY st with
                             | Some o => isDraggable o
                             | None => false
                             end then "grab" else "default")
                  else st) as ->.
    { unfold st'. rewrite handleMouseMove_cases. destruct enabled; [|done].
      destruct Hidle as [->| ->]; [done|]. by destruct (isDragging st). }
    destruct enabled; [simpl | by split]. split; [done|]. intros _. split; [done|].
    destruct (resolvePointer clientX clientY st) as [d|].
    + destruct (isDraggable d) eqn:Hdraggable.
      * split; [by exists d|done].
      * split; [done|]. intros (d' & [= <-] & Hd'). congruence.
    + split; [done|]. by intros (d' & ? & _).
Qed.

(** *** What a release leaves alone *)

Lemma clampAxis_idempotent (lo hi : option number) (p : number) :
  clampAxis lo hi (clampAxis lo hi p) = clampAxis lo hi p.
Proof.
  unfold clampAxis. destruct lo as [m|], hi as [M|]; try done.
  - destruct m as [|m], M as [|M], p as [|p]; simpl; try done;
      repeat (case_bool_decide; simpl); try done; qc_lra.
  - destruct m as [|m], p as [|p]; simpl; try done;
      repeat (case_bool_decide; simpl); try done; qc_lra.
  - destruct M as [|M], p as [|p]; simpl; try done;
      repeat (case_bool_decide; simpl); try done; qc_lra.
Qed.

Lemma clampPosition_idempotent (c : Constraints) (pos : Vector3) :
  clampPosition c (clampPosition c pos) = clampPosition c pos.
Proof. unfold clampPosition. simpl. by rewrite !clampAxis_idempotent. Qed.

(** X12: a release touches nothing but the position of the dragged
    object, the drag cells and, through the effect that follows the
    change of [isDragging], the cursor: the registry and the hovered
    handle stay, every other object stays, the children of the dragged
    object stay, and without a dragged handle or without constraints
    the whole scene stays; when nothing is being dragged,
    [handleMouseUp] changes nothing at all; once the cursor effect has
    run after the release of a drag, the cursor is [grab] over a
    draggable hovered handle and [default] otherwise. *)
Theorem endDrag_frame (st : State) :
  registeredObjects (endDrag st) = registeredObjects st ∧
  hoveredObject (endDrag st) = hoveredObject st ∧
  (∀ d o, draggedObject st = Some d → o ≠ object d →
          scene (endDrag st) !! o = scene st !! o) ∧
  (∀ d, draggedObject st = Some d →
        children <$> scene (endDrag st) !! object d
        = children <$> scene st !! object d) ∧
  (draggedObject st = None ∨ (∃ d, draggedObject st = Some d ∧ constraints d = None) →
   scene (endDrag st) = scene st) ∧
  (isDragging st = false → handleMouseUp st = st) ∧
  (isDragging st = true →
   cursor (cursorEffect (handleMouseUp st))
   = if match hoveredObject st with
        | Some h => isDraggable h
        | None => false
        end
     then "grab" else "default").
Proof.
  unfold endDrag, handleMouseUp, cursorEffect. simpl.
  split; [done|]. split; [done|]. split; [|split; [|split; [|split]]].
  - intros d o -> Ho. destruct (constraints d); [|done].
    by rewrite lookup_alter_ne.
  - intros d ->. destruct (constraints d); [|done].
    rewrite lookup_alter_eq. by destruct (scene st !! object d).
  - intros [->|(d & -> & ->)]; done.
  - by intros ->.
  - by intros ->.
Qed.

(** The release of the flask of [dragging]: the cursor goes from
    [grabbing] to [default]. *)
Example endDrag_cursor :
  let st := dragging (handle "flask" 0 None)
              (mkVector3 (lit 1 1) (lit (-3) 1) (lit 2 1)) in
  cursor st = "grabbing" ∧ cursor (handleMouseUp st) = "grabbing" ∧
  cursor (cursorEffect (handleMouseUp st)) = "default".
Proof. repeat split. Qed.

(** *** Picking a handle up *)

Lemma handleMouseDown_resolve `{Host} (enabled : bool) (clientX clientY : number)
    (st : State) :
  handleMouseDown enabled clientX clientY st
  = if enabled
    then match resolvePointer clientX clientY st with
         | Some d => startDrag d st
         | None => st
         end
    else st.
Proof.
  unfold handleMouseDown, resolvePointer. destruct enabled; [simpl|done].
  by destruct (getIntersection clientX clientY st).
Qed.

Lemma startDrag_fixed (d : DragObject) (st : State) :
  isDraggable d = false → startDrag d st = st.
Proof. unfold startDrag. by intros ->. Qed.

(** The cells after a draggable handle is picked up. *)
Lemma startDrag_picked (d : DragObject) (st : State) :
  isDraggable d = true →
  scene (startDrag d st) = scene st ∧
  cursor (startDrag d st) = cursor st ∧
  isDragging (startDrag d st) = true ∧
  ∃ d', draggedObject (startDrag d st) = Some d' ∧
        id d' = id d ∧ object d' = object d ∧ type d' = type d ∧
        isDraggable d' = true ∧ constraints d' = constraints d ∧
        ∀ o, scene st !! object d = Some o → initialPosition d' = position o.
Proof.
  intros Hd. unfold startDrag. rewrite Hd. simpl.
  split; [done|]. split; [done|]. split; [done|].
  destruct (scene st !! object d) as [o|]; eexists; (split; [reflexivity|]);
    simpl; repeat split; try done. by intros ? [= <-].
Qed.

(** X13: a press changes nothing unless the provider is enabled and
    the pointer resolves to a draggable handle; then it starts a drag
    of this handle, with the current position of its object recorded as
    [initialPosition], and moves no object. *)
Theorem handleMouseDown_picks `{Host} (enabled : bool) (clientX clientY : number)
    (st : State) :
  let st' := handleMouseDown enabled clientX clientY st in
  (enabled = true ∧
   ∃ d d', resolvePointer clientX clientY st = Some d ∧ isDraggable d = true ∧
           draggedObject st' = Some d' ∧ isDragging st' = true ∧
           scene st' = scene st ∧
           id d' = id d ∧ object d' = object d ∧ constraints d' = constraints d ∧
           ∀ o, scene st !! object d = Some o → initialPosition d' = position o)
  ∨ ((enabled = false ∨ resolvePointer clientX clientY st = None ∨
      ∃ d, resolvePointer clientX clientY st = Some d ∧ isDraggable d = false) ∧
     st' = st).
Proof.
  intros st'. unfold st'. rewrite handleMouseDown_resolve.
  destruct enabled; [|right; split; [by left | done]].
  destruct (resolvePointer clientX clientY st) as [d|] eqn:Hres;
    [|right; split; [right; by left | done]].
  destruct (isDraggable d) eqn:Hd.
  - left. split; [done|].
    destruct (startDrag_picked d st Hd)
      as (Hsc & _ & Hdg & d' & Hdr & Hid & Hobj & _ & _ & Hc & Hinit).
    by exists d, d'.
  - right. split; [right; right; by exists d|]. by apply startDrag_fixed.
Qed.

(** *** A whole gesture *)

(** X14: on a library such as three.js, whose [Vector3] has no method
    [setFromNormalAndCoplanarPoint], a press on a draggable handle, a
    move and the release never take the object of the handle to the
    pointer: the move throws, and the release leaves the object where
    it was before the press, clamped into the constraints of the
    handle, with nothing dragged any more and every other object where
    it was. *)
Theorem dragGesture_position `{Host} (x1 y1 x2 y2 : number) (st : State)
    (d : DragObject) (o : Object3D) :
  Vector3_setFromNormalAndCoplanarPoint = None →
  resolvePointer x1 y1 st = Some d → isDraggable d = true →
  scene st !! object d = Some o →
  (handleMouseMove_call true x2 y2 (handleMouseDown true x1 y1 st)).2
  = Throws "TypeError" ∧
  positionOf (dragGesture x1 y1 x2 y2 st) d
  = Some (match constraints d with
          | Some c => clampPosition c (position o)
          | None => position o
          end) ∧
  draggedObject (dragGesture x1 y1 x2 y2 st) = None ∧
  isDragging (dragGesture x1 y1 x2 y2 st) = false ∧
  ∀ o', o' ≠ object d →
        scene (dragGesture x1 y1 x2 y2 st) !! o' = scene st !! o'.
Proof.
  intros Hnone Hres Hd Ho. unfold dragGesture, handleMouseMove.
  rewrite handleMouseDown_resolve, Hres.
  destruct (startDrag_picked d st Hd)
    as (Hsc & _ & Hdg & d' & Hdr & _ & Hobj & _ & _ & Hc & _).
  set (st1 := startDrag d st) in *.
  rewrite (handleMouseMove_call_throws x2 y2 st1 d' Hnone Hdg Hdr).
  split; [done|]. cbn [fst].
  unfold handleMouseUp. rewrite Hdg.
  unfold endDrag, positionOf. simpl. rewrite Hdr, Hc, Hobj, Hsc.
  split; [|split; [done|split; [done|]]].
  - destruct (constraints d) as [c|].
    + by rewrite lookup_alter_eq, Ho.
    + by rewrite Ho.
  - intros o' Ho'. destruct (constraints d) as [c|]; [|done].
    by rewrite lookup_alter_ne.
Qed.

Lemma dragGesture_position_witness :
  positionOf
    (@dragGesture (hitHost 0) (lit 0 1) (lit 0 1) (lit 0 1) (lit 0 1)
       (registerObject (handle "flask" 0 None)
          (mkState {[0 := mkObject3D (mkVector3 (lit 2 1) (lit (-3) 1) (lit 3 1)) []]}
                   [] None None false "default")))
    (handle "flask" 0 None)
  = Some (clampPosition
            (mkConstraints (Some (lit 5 10)) None None None None None)
            (mkVector3 (lit 2 1) (lit (-3) 1) (lit 3 1))).
Proof.
  destruct (@dragGesture_position (hitHost 0) (lit 0 1) (lit 0 1) (lit 0 1) (lit 0 1)
              (registerObject (handle "flask" 0 None)
                 (mkState
                    {[0 := mkObject3D (mkVector3 (lit 2 1) (lit (-3) 1) (lit 3 1)) []]}
                    [] None None false "default"))
              (handle "flask" 0 None)
              (mkObject3D (mkVector3 (lit 2 1) (lit (-3) 1) (lit 3 1)) []))
    as (_ & Hpos & _); [reflexivity.. | exact Hpos].
Defined.

(** X15: picking a released handle up again and releasing it without
    a move leaves every object where the first release put it. *)
Theorem endDrag_again (st : State) (d : DragObject) :
  draggedObject st = Some d → isDraggable d = true →
  scene (endDrag (startDrag d (endDrag st))) = scene (endDrag st).
Proof.
  intros Hdr Hd.
  destruct (startDrag_picked d (endDrag st) Hd)
    as (Hsc & _ & _ & d' & Hdr' & _ & Hobj & _ & _ & Hc & _).
  unfold endDrag at 1. rewrite Hdr', Hc, Hobj, Hsc. simpl.
  destruct (constraints d) as [c|] eqn:Hcd; [|done].
  unfold endDrag. rewrite Hdr, Hcd. simpl.
  apply map_eq. intros r. destruct (decide (r = object d)) as [->|Hne].
  - rewrite !lookup_alter_eq. destruct (scene st !! object d) as [o|]; [|done].
    simpl. unfold updatePosition. simpl. by rewrite clampPosition_idempotent.
  - by rewrite !lookup_alter_ne.
Qed.

Lemma endDrag_again_witness :
  scene (endDrag (startDrag (handle "flask" 0 None)
                    (endDrag (dragging (handle "flask" 0 None)
                                (mkVector3 (lit 1 1) (lit (-3) 1) (lit 2 1))))))
  = scene (endDrag (dragging (handle "flask" 0 None)
                      (mkVector3 (lit 1 1) (lit (-3) 1) (lit 2 1)))).
Proof. apply endDrag_again; reflexivity. Defined.

End DragDropFacts.

(** ** More on the liquid particle simulator *)

Module LiquidSystemFacts.
Import LiquidSystem LiquidSystemSpec.

(** *** Splash particles over several steps *)

Lemma splashSteps_snoc `{Arith} (props : Props) (deltas : list number)
    (delta : number) (prev : list LiquidParticle) :
  splashSteps props (deltas ++ [delta]) prev
  = updateSplashParticles props delta (splashSteps props deltas prev).
Proof. unfold splashSteps. by rewrite foldl_app. Qed.

(** A particle that is there after some updates comes from a particle
    of the start, the durations added to its age one by one; it went
    through the test of the last update. *)
Lemma splashSteps_origin `{Arith} (props : Props) (deltas : list number)
    (prev : list LiquidParticle) (q : LiquidParticle) :
  q ∈ splashSteps props deltas prev →
  ∃ p, p ∈ prev ∧ id q = id p ∧ lifetime q = lifetime p ∧
       age q = foldl js_add (age p) deltas ∧
       (deltas ≠ [] → (age q >? lifetime q)%js = false).
Proof.
  revert q. induction deltas as [|delta deltas IH] using rev_ind; intros q Hq.
  { exists q. by repeat split. }
  rewrite splashSteps_snoc in Hq. unfold updateSplashParticles in Hq.
  apply list_elem_of_omap in Hq as (q0 & Hq0 & Hstep).
  destruct (IH q0 Hq0) as (p & Hp & Hid & Hlife & Hage & _).
  destruct (updateSplashParticle_Some props delta q0 q Hstep) as (Hage' & Hid' & Hlife').
  exists p. split; [done|]. split; [congruence|]. split; [congruence|].
  split; [by rewrite foldl_app, <- Hage|]. intros _.
  destruct (js_gt (age q) (lifetime q)) eqn:Hgt; [|done].
  assert (expired delta q0 = true) as Hexp.
  { unfold expired. by rewrite <- Hage', <- Hlife'. }
  apply (proj2 (updateSplashParticle_None props delta q0)) in Hexp. congruence.
Qed.

(** The updates of the frame alone leave no particle whose age, with
    the durations added one by one, exceeds its lifetime. *)
Lemma splashSteps_gone `{Arith} (props : Props) (deltas : list number)
    (prev : list LiquidParticle) :
  deltas ≠ [] →
  (∀ p, p ∈ prev → (lifetime p < foldl js_add (age p) deltas)%js) →
  splashSteps props deltas prev = [].
Proof.
  intros Hne Hold.
  destruct (splashSteps props deltas prev) as [|q l] eqn:Hq; [done|].
  destruct (splashSteps_origin props deltas prev q) as (p & Hp & _ & Hlife & Hage & Hlast).
  { rewrite Hq. apply list_elem_of_here. }
  specialize (Hold p Hp). specialize (Hlast Hne).
  unfold num_lt, js_gt in *. rewrite Hlife, Hage in Hlast. congruence.
Qed.

Lemma splashStep_app `{Arith} (props : Props) (eager : bool) (delta : number)
    (created old prev : list LiquidParticle) :
  splashStep props eager delta created (old ++ prev)
  = updateSplashParticles props delta old
    ++ splashStep props eager delta created prev.
Proof.
  unfold splashStep, updateSplashParticles. destruct eager.
  - by rewrite <- app_assoc, omap_app.
  - by rewrite omap_app, <- app_assoc.
Qed.

(** The particles of the start go through the updates of the frames
    and stay ahead of the particles that join later. *)
Lemma splashRun_app `{Arith} (props : Props) (steps : list SplashStep) :
  ∀ old prev : list LiquidParticle,
  splashRun props steps (old ++ prev)
  = splashSteps props (duration <$> steps) old ++ splashRun props steps prev.
Proof.
  unfold splashRun, splashSteps.
  induction steps as [|s steps IH]; intros old prev; [done|].
  cbn [foldl fmap list_fmap]. rewrite splashStep_app. apply IH.
Qed.

(** X16: whatever the arithmetic of the host, the order in which React
    applies the updaters and the splashes that join on the way: after
    at least one step the splash particles of the start are gone when,
    for each of them, the durations of the steps added one by one to
    its age exceed its lifetime; the population is the one that an
    empty population would have become. *)
Theorem splashRun_expire `{Arith} (props : Props) (steps : list SplashStep)
    (prev : list LiquidParticle) :
  steps ≠ [] →
  (∀ p, p ∈ prev →
        (lifetime p < foldl js_add (age p) (duration <$> steps))%js) →
  splashRun props steps prev = splashRun props steps [].
Proof.
  intros Hne Hold.
  rewrite <- (app_nil_r prev) at 1. rewrite splashRun_app.
  rewrite splashSteps_gone; [done| |done].
  by destruct steps.
Qed.

Lemma splashRun_expire_witness :
  splashRun defaultProps
    [mkSplashStep false (lit 4 10)
       [particleAt (mkVector3 (lit 1 1) (lit 0 1) (lit 1 1)) (lit 1 1) (lit 0 1)];
     mkSplashStep true (lit 4 10) []; mkSplashStep true (lit 4 10) []]
    [particleAt (mkVector3 (lit 0 1) (lit 5 1) (lit 0 1)) (lit 1 1) (lit 0 1)]
  = splashRun defaultProps
      [mkSplashStep false (lit 4 10)
         [particleAt (mkVector3 (lit 1 1) (lit 0 1) (lit 1 1)) (lit 1 1) (lit 0 1)];
       mkSplashStep true (lit 4 10) []; mkSplashStep true (lit 4 10) []]
      [].
Proof.
  apply splashRun_expire; [done|].
  intros p Hp. apply list_elem_of_singleton in Hp. subst p.
  vm_compute. reflexivity.
Defined.

(** In the run of the witness the particle that joined in the first
    step is still there at the end. *)
Example splashRun_joined :
  length (splashRun defaultProps
            [mkSplashStep false (lit 4 10)
               [particleAt (mkVector3 (lit 1 1) (lit 0 1) (lit 1 1))
                           (lit 1 1) (lit 0 1)];
             mkSplashStep true (lit 4 10) []; mkSplashStep true (lit 4 10) []]
            [particleAt (mkVector3 (lit 0 1) (lit 5 1) (lit 0 1))
                        (lit 1 1) (lit 0 1)])
  = 1.
Proof. vm_compute. reflexivity. Qed.

(** A step of [useFrame] is a step of [splashRun]. *)
Lemma useFrame_splashRun `{Host} (props : Props) (delta : number) (st : State)
    (w : World) :
  enabled props = true →
  splashParticles (useFrame props delta st w).1
  = splashRun props
      [mkSplashStep (eagerState w) delta (capturedSplashes props delta st w)]
      (splashParticles st ++ splashQueue w).
Proof. intros Hen. by destruct (useFrame_enabled props delta st w Hen) as [_ ->]. Qed.




(** *** Splashes *)

Lemma particle_id_inj (m n : nat) :
  "particle-" +:+ pretty m = "particle-" +:+ pretty n → m = n.
Proof. intros Heq%(inj (String.app "particle-")). by apply (inj pretty). Qed.

(** One turn of the loop of [createSplash]: a particle with the next
    id, five calls of [Math.random], nothing appended yet. *)
Lemma splashParticle_run `{Host} (pos : Vector3) (col : string) (count : number)
    (i : nat) (w : World) :
  ∃ vel sz life,
    splashParticle pos col count i w
    = (mkLiquidParticle ("particle-" +:+ pretty (particleIdCounter w)) pos vel
         col sz life (lit 0 1) true,
       mkWorld (S (particleIdCounter w)) (5 + randomCalls w) (splashQueue w)).
Proof.
  unfold splashParticle, createParticle, bind, Math_random, nextParticleId, ret.
  cbn [particleIdCounter randomCalls splashQueue]. by eexists _, _, _.
Qed.

Lemma mapM_splashParticle `{Host} (pos : Vector3) (col : string) (count : number)
    (l : list nat) :
  ∀ w, ∃ ps,
    mapM (splashParticle pos col count) l w
    = (ps, mkWorld (particleIdCounter w + length l)
             (randomCalls w + 5 * length l) (splashQueue w)) ∧
    length ps = length l ∧
    ∀ j p, ps !! j = Some p →
           id p = "particle-" +:+ pretty (particleIdCounter w + j) ∧
           position p = pos ∧ color p = col ∧ age p = lit 0 1.
Proof.
  induction l as [|i l IH]; intros w.
  { exists []. simpl. unfold ret. rewrite !Nat.add_0_r. by destruct w. }
  destruct (splashParticle_run pos col count i w) as (vel & sz & life & Hrun).
  destruct (IH (mkWorld (S (particleIdCounter w)) (5 + randomCalls w) (splashQueue w)))
    as (ps & Hps & Hlen & Hall).
  eexists (_ :: ps). simpl. unfold bind at 1. rewrite Hrun.
  unfold bind at 1. rewrite Hps. unfold ret. simpl.
  split; [f_equal; f_equal; lia|]. split; [by rewrite Hlen|].
  intros [|j] p Hp; simpl in *.
  - injection Hp as <-. simpl. by rewrite Nat.add_0_r.
  - destruct (Hall j p Hp) as (Hid & ? & ? & ?).
    repeat split; try done. rewrite Hid. do 2 f_equal. lia.
Qed.

(** X18: [createSplash(position, color, count)] asks for exactly as many
    particles as its loop has turns, appended in order after the ones
    already asked for; they sit at [position], have the colour [color]
    and age 0, and carry the next ids of the counter, which are
    pairwise distinct; each turn takes five random numbers. *)
Theorem createSplash_appends `{Host} (pos : Vector3) (col : string)
    (count : number) (w : World) :
  ∃ new,
    createSplash pos col count w
    = (tt, mkWorld (particleIdCounter w + loopCount count)
             (randomCalls w + 5 * loopCount count) (splashQueue w ++ new)) ∧
    length new = loopCount count ∧
    (∀ j p, new !! j = Some p →
            id p = "particle-" +:+ pretty (particleIdCounter w + j) ∧
            position p = pos ∧ color p = col ∧ age p = lit 0 1) ∧
    NoDup (id <$> new).
Proof.
  destruct (mapM_splashParticle pos col count (seq 0 (loopCount count)) w)
    as (ps & Hps & Hlen & Hall).
  rewrite length_seq in *.
  exists ps. split; [|split; [done|split; [done|]]].
  - unfold createSplash, bind. by rewrite Hps.
  - apply NoDup_alt. intros i j k Hi Hj.
    rewrite list_lookup_fmap in Hi, Hj.
    destruct (ps !! i) as [p1|] eqn:H1; [|done].
    destruct (ps !! j) as [p2|] eqn:H2; [|done].
    simpl in *. destruct (Hall i p1 H1) as [Hid1 _].
    destruct (Hall j p2 H2) as [Hid2 _].
    assert (particleIdCounter w + i = particleIdCounter w + j); [|lia].
    apply particle_id_inj. congruence.
Qed.

(** No splash for a count of 0, and three particles for the count 3
    of the step. *)
Example createSplash_counts :
  (@createSplash sampleHost Vec.zero "#4ade80" (lit 0 1) world0).2 = world0 ∧
  length (splashQueue (@createSplash sampleHost Vec.zero "#4ade80" (lit 3 1) world0).2)
  = 3.
Proof. split; reflexivity. Qed.

(** *** What a step does to the list of streams *)

Lemma mapM_length {A B} (f : A → M B) (l : list A) :
  ∀ w, length (mapM f l w).1 = length l.
Proof.
  induction l as [|a l IH]; intros w; [done|].
  simpl. unfold bind, ret. destruct (f a w) as [b w1].
  specialize (IH w1). destruct (mapM f l w1) as [bs w2]. simpl in *. by rewrite IH.
Qed.

(** The result of index [i] comes from the element of index [i]. *)
Lemma mapM_lookup_inv {A B} (f : A → M B) (l : list A) (w : World) (i : nat)
    (b : B) :
  (mapM f l w).1 !! i = Some b → ∃ a w', l !! i = Some a ∧ b = (f a w').1.
Proof.
  intros Hb. pose proof (lookup_lt_Some _ _ _ Hb) as Hlt.
  rewrite mapM_length in Hlt.
  destruct (lookup_lt_is_Some_2 l i Hlt) as [a Ha].
  destruct (mapM_lookup f l w i a Ha) as [w' Hw'].
  exists a, w'. split; [done|]. congruence.
Qed.

Lemma length_omap_le {A B} (g : A → option B) (l : list A) :
  length (omap g l) ≤ length l.
Proof.
  induction l as [|a l IH]; [done|]. simpl. destruct (g a); simpl.
  - apply le_n_S. exact IH.
  - apply Nat.le_trans with (length l); [exact IH | lia].
Qed.

(** The number of particles that a stream gains in a step. *)
Lemma spawnParticles_length `{Host} (props : Props) (delta : number)
    (s : LiquidStream) (w : World) :
  length (spawnParticles props delta s w).1
  = if isActive s
       && (ofNat (length (particles s)) <? maxParticles props / lit 10 1)%js
    then loopCount (Math_floor (flowRate s * delta * lit 5 1)%js)
    else 0.
Proof.
  unfold spawnParticles. destruct (_ && _); [|done].
  by rewrite mapM_length, length_seq.
Qed.

(** A step keeps what identifies a stream. *)
Lemma updateStream_fields `{Host} (props : Props) (delta : number)
    (s : LiquidStream) (w : World) :
  let s' := (updateStream props delta s w).1 in
  stream_id s' = stream_id s ∧ sourcePosition s' = sourcePosition s ∧
  targetPosition s' = targetPosition s ∧ isActive s' = isActive s ∧
  flowRate s' = flowRate s ∧ stream_color s' = stream_color s.
Proof.
  unfold updateStream. destruct (_ && _); [done|].
  unfold bind, ret. destruct (spawnParticles _ _ _ _) as [spawned w1].
  by destruct (mapM _ _ w1).
Qed.

Lemma useFrame_streams `{Host} (props : Props) (delta : number) (st : State)
    (w : World) :
  streams (useFrame props delta st w).1
  = if enabled props
    then (mapM (updateStream props delta) (streams st) (takeSplashQueue w).2).1
    else streams st.
Proof.
  destruct (enabled props) eqn:Hen.
  - by destruct (useFrame_enabled props delta st w Hen) as [-> _].
  - unfold useFrame. by rewrite Hen.
Qed.

(** The stream of index [i] after a step, whether or not the provider
    is enabled. *)
Lemma useFrame_lookup `{Host} (props : Props) (delta : number) (st : State)
    (w : World) (i : nat) (s' : LiquidStream) :
  streams (useFrame props delta st w).1 !! i = Some s' →
  ∃ s, streams st !! i = Some s ∧
       (s' = s ∨ ∃ w', s' = (updateStream props delta s w').1).
Proof.
  rewrite useFrame_streams. destruct (enabled props).
  - intros (s & w' & Hs & ->)%mapM_lookup_inv. exists s. split; [done|].
    right. by exists w'.
  - intros Hs. exists s'. split; [done | by left].
Qed.

Lemma useFrame_length `{Host} (props : Props) (delta : number) (st : State)
    (w : World) :
  length (streams (useFrame props delta st w).1) = length (streams st).
Proof.
  rewrite useFrame_streams. destruct (enabled props); [|done].
  apply mapM_length.
Qed.

(** The particles of a stream after a step are at most the ones it
    had and the ones spawned. *)
Lemma updateStream_length `{Host} (props : Props) (delta : number)
    (s : LiquidStream) (w : World) :
  length (particles (updateStream props delta s w).1)
  ≤ length (particles s)
    + (if isActive s
          && (ofNat (length (particles s)) <? maxParticles props / lit 10 1)%js
       then loopCount (Math_floor (flowRate s * delta * lit 5 1)%js)
       else 0).
Proof.
  rewrite updateStream_particles.
  pose proof (length_omap_le (streamFate props delta s)
                (particles s ++ (spawnParticles props delta s w).1)) as Hle.
  by rewrite length_app, spawnParticles_length in Hle.
Qed.

(** X19: a step never adds, removes or reorders streams, and never
    changes the id, the end points, the active flag, the flow rate or
    the colour of a stream. *)
Theorem useFrame_keeps_streams `{Host} (props : Props) (delta : number)
    (st : State) (w : World) :
  length (streams (useFrame props delta st w).1) = length (streams st) ∧
  ∀ i s', streams (useFrame props delta st w).1 !! i = Some s' →
          ∃ s, streams st !! i = Some s ∧
               stream_id s' = stream_id s ∧
               sourcePosition s' = sourcePosition s ∧
               targetPosition s' = targetPosition s ∧
               isActive s' = isActive s ∧
               flowRate s' = flowRate s ∧
               stream_color s' = stream_color s.
Proof.
  split; [apply useFrame_length|].
  - intros i s' Hs'.
    destruct (useFrame_lookup props delta st w i s' Hs') as (s & Hs & [->|[w' ->]]).
    + by exists s.
    + exists s. split; [done|]. apply updateStream_fields.
Qed.

(** X20: in a step a stream gains at most the particles of one spawn,
    [floor(flowRate * delta * 5)] of them, and gains none when it is
    inactive or already holds [maxParticles / 10] particles or more. *)
Theorem useFrame_growth `{Host} (props : Props) (delta : number) (st : State)
    (w : World) (i : nat) (s' : LiquidStream) :
  streams (useFrame props delta st w).1 !! i = Some s' →
  ∃ s, streams st !! i = Some s ∧
       length (particles s')
       ≤ length (particles s)
         + loopCount (Math_floor (flowRate s * delta * lit 5 1)%js) ∧
       (isActive s = false
        ∨ (ofNat (length (particles s)) <? maxParticles props / lit 10 1)%js = false →
        length (particles s') ≤ length (particles s)).
Proof.
  intros Hs'.
  destruct (useFrame_lookup props delta st w i s' Hs') as (s & Hs & [->|[w' ->]]).
  { exists s. split; [done|]. split; [lia|]. intros _. lia. }
  exists s. split; [done|].
  pose proof (updateStream_length props delta s w') as Hle.
  split.
  - destruct (_ && _); lia.
  - intros [Hidle|Hfull].
    + rewrite Hidle in Hle. simpl in Hle. lia.
    + rewrite Hfull, andb_false_r in Hle. lia.
Qed.

(** A stream that pours 10 mL per second gains five particles in a
    step of a tenth of a second. *)
Lemma useFrame_growth_witness :
  ∃ s, streams (mkState [pouringStream] []) !! 0 = Some s ∧
       length (particles
                 (@updateStream sampleHost defaultProps (lit 1 10)
                    pouringStream world0).1)
       ≤ length (particles s)
         + loopCount (Math_floor (flowRate s * lit 1 10 * lit 5 1)%js).
Proof.
  destruct (@useFrame_growth sampleHost defaultProps (lit 1 10)
              (mkState [pouringStream] []) world0 0
              (@updateStream sampleHost defaultProps (lit 1 10)
                 pouringStream world0).1)
    as (s & Hs & Hle & _).
  - vm_compute. reflexivity.
  - exists s. split; [exact Hs | exact Hle].
Defined.

(** The number of particles spawned follows the arithmetic of the
    host: with a flow rate of 10 and the duration that binary64 has
    for [0.06], three particles with the products rounded, two
    without. *)
Example spawn_rounding :
  length (@spawnParticles roundingHost defaultProps (@decimal binary64Arith 6 100)
            pouringStream world0).1 = 3 ∧
  length (@spawnParticles sampleHost defaultProps (@decimal binary64Arith 6 100)
            pouringStream world0).1 = 2.
Proof. split; vm_compute; reflexivity. Qed.

Example useFrame_spawns :
  length (particles
            (@updateStream sampleHost defaultProps (lit 1 10)
               pouringStream world0).1) = 5 ∧
  loopCount (Math_floor (flowRate pouringStream * lit 1 10 * lit 5 1)%js) = 5.
Proof. split; vm_compute; reflexivity. Qed.

(** *** After [stopPour] *)

Lemma useFrames_cons `{Host} (props : Props) (delta : number)
    (deltas : list number) (st : State) (w : World) :
  useFrames props (delta :: deltas) st w
  = useFrames props deltas (useFrame props delta st w).1
                           (useFrame props delta st w).2.
Proof. simpl. unfold bind. by destruct (useFrame props delta st w). Qed.

(** An inactive stream stays, inactive, through any number of steps
    and gains no particle. *)
Lemma useFrames_inactive `{Host} (props : Props) (deltas : list number) :
  ∀ (st : State) (w : World) (i : nat) (s : LiquidStream),
  streams st !! i = Some s → isActive s = false →
  ∃ s', streams (useFrames props deltas st w).1 !! i = Some s' ∧
        stream_id s' = stream_id s ∧ isActive s' = false ∧
        length (particles s') ≤ length (particles s).
Proof.
  induction deltas as [|delta deltas IH]; intros st w i s Hs Hidle.
  { exists s. by repeat split. }
  rewrite useFrames_cons.
  destruct (lookup_lt_is_Some_2 (streams (useFrame props delta st w).1) i)
    as [s1 Hs1].
  { rewrite useFrame_length. by apply lookup_lt_Some in Hs. }
  destruct (useFrame_lookup props delta st w i s1 Hs1) as (s0 & Hs0 & Hcase).
  simplify_eq.
  assert (stream_id s1 = stream_id s ∧ isActive s1 = false ∧
          length (particles s1) ≤ length (particles s)) as (Hid & Hact & Hlen).
  { destruct Hcase as [->|[w' ->]]; [done|].
    destruct (updateStream_fields props delta s w') as (Hid & _ & _ & Hact & _).
    split; [done|]. split; [congruence|].
    pose proof (updateStream_length props delta s w') as Hle.
    rewrite Hidle in Hle. simpl in Hle. lia. }
  destruct (IH _ (useFrame props delta st w).2 i s1 Hs1 Hact)
    as (s' & Hs' & Hid' & Hact' & Hle).
  exists s'. split; [done|]. split; [congruence|]. split; [done|]. lia.
Qed.

(** X21: [stopPour(id)] marks the streams with this id inactive and
    keeps their particles; from then on such a stream stays in place,
    inactive, through any number of steps, and its number of
    particles never grows. *)
Theorem stopPour_drains `{Host} (props : Props) (deltas : list number)
    (streamId : string) (st : State) (w : World) (i : nat) (s : LiquidStream) :
  streams st !! i = Some s → stream_id s = streamId →
  (∃ s0, streams (stopPour streamId st) !! i = Some s0 ∧
         isActive s0 = false ∧ particles s0 = particles s) ∧
  ∃ s', streams (useFrames props deltas (stopPour streamId st) w).1 !! i = Some s' ∧
        stream_id s' = streamId ∧ isActive s' = false ∧
        length (particles s') ≤ length (particles s).
Proof.
  intros Hs Hid.
  assert (streams (stopPour streamId st) !! i
          = Some (mkLiquidStream (stream_id s) (sourcePosition s) (targetPosition s)
                    (particles s) false (flowRate s) (stream_color s))) as Hs0.
  { unfold stopPour, stopPour_deactivate. simpl.
    rewrite list_lookup_fmap, Hs. simpl. by rewrite decide_True. }
  split; [by eexists|].
  destruct (useFrames_inactive props deltas (stopPour streamId st) w i _ Hs0 eq_refl)
    as (s' & Hs' & Hid' & Hact & Hle).
  exists s'. split; [done|]. split; [by rewrite Hid'|]. done.
Qed.

Lemma stopPour_drains_witness :
  ∃ s', streams (@useFrames sampleHost defaultProps [lit 1 10; lit 1 10]
                   (stopPour "stream-0"
                      (mkState [drainingStream
                                  (particleAt (mkVector3 (lit 0 1) (lit 5 1) (lit 0 1))
                                              (lit 1 1) (lit 0 1))] []))
                   world0).1 !! 0 = Some s' ∧
        stream_id s' = "stream-0" ∧ isActive s' = false ∧
        length (particles s') ≤ 1.
Proof.
  destruct (@stopPour_drains sampleHost defaultProps [lit 1 10; lit 1 10]
              "stream-0"
              (mkState [drainingStream
                          (particleAt (mkVector3 (lit 0 1) (lit 5 1) (lit 0 1))
                                      (lit 1 1) (lit 0 1))] [])
              world0 0
              (drainingStream
                 (particleAt (mkVector3 (lit 0 1) (lit 5 1) (lit 0 1))
                             (lit 1 1) (lit 0 1))))
    as [_ Hdrain].
  - reflexivity.
  - reflexivity.
  - exact Hdrain.
Defined.

(** *** Starting a pour *)

Lemma stream_id_inj (m n : nat) :
  "stream-" +:+ pretty m = "stream-" +:+ pretty n → m = n.
Proof. intros Heq%(inj (String.app "stream-")). by apply (inj pretty). Qed.

(** X22: [startPour] appends one active stream without particles, from
    0.2 above the source container to 0.1 above the target container,
    under the next id of the counter; when the ids of the live streams
    were given out by the counter, the new id is carried by no other
    stream, the ids stay pairwise distinct, and [stopPour] on the new
    id followed by its timer gives back the list of before. *)
Theorem startPour_fresh (data : PourData) (n : nat) (prev : list LiquidStream) :
  idsBelow n prev →
  ∃ s, startPour data n prev = (S n, prev ++ [s]) ∧
       stream_id s = "stream-" +:+ pretty n ∧
       isActive s = true ∧ particles s = [] ∧ flowRate s = transferRate data ∧
       sourcePosition s
       = Vec.set_y (sourceContainer data) (y (sourceContainer data) + lit 2 10)%js ∧
       targetPosition s
       = Vec.set_y (targetContainer data) (y (targetContainer data) + lit 1 10)%js ∧
       idsBelow (S n) (prev ++ [s]) ∧
       (stream_id s ∉ stream_id <$> prev) ∧
       (NoDup (stream_id <$> prev) → NoDup (stream_id <$> (prev ++ [s]))) ∧
       stopPour_timeout (stream_id s)
         (stopPour_deactivate (stream_id s) (prev ++ [s])) = prev.
Proof.
  intros Hbelow. eexists. split; [reflexivity|]. simpl.
  assert ("stream-" +:+ pretty n ∉ (stream_id <$> prev)) as Hfresh.
  { intros (s & Hid & Hs)%list_elem_of_fmap.
    destruct (Hbelow s Hs) as (k & Hk & Hid').
    rewrite Hid' in Hid. apply stream_id_inj in Hid. lia. }
  repeat split; try done.
  - intros s [Hs|Hs%list_elem_of_singleton]%elem_of_app.
    + destruct (Hbelow s Hs) as (k & Hk & Hid). exists k. split; [lia|done].
    + subst s. exists n. split; [lia|done].
  - intros Hnd. rewrite fmap_app. apply NoDup_app. split; [done|].
    split; [|apply NoDup_singleton].
    intros k Hk ->%list_elem_of_singleton. done.
  - unfold stopPour_deactivate, stopPour_timeout.
    rewrite fmap_app, filter_app. simpl.
    rewrite decide_True by done.
    rewrite filter_cons_False by (simpl; tauto). rewrite filter_nil, app_nil_r.
    fold (stopPour_deactivate ("stream-" +:+ pretty n) prev).
    rewrite stopPour_deactivate_absent by done.
    by apply stopPour_timeout_absent.
Qed.

Lemma startPour_fresh_witness :
  ∃ s, startPour (mkPourData Vec.zero Vec.zero (lit 50 1) (lit 0 1) (lit 10 1) "#4ade80")
         1 [idleStream "stream-0"]
       = (2, [idleStream "stream-0"] ++ [s]) ∧
       stream_id s = "stream-1".
Proof.
  destruct (startPour_fresh
              (mkPourData Vec.zero Vec.zero (lit 50 1) (lit 0 1) (lit 10 1) "#4ade80")
              1 [idleStream "stream-0"]) as (s & Hs & Hid & _).
  - intros s0 Hs0%list_elem_of_singleton. subst s0. exists 0. split; [lia|done].
  - exists s. split; [exact Hs | exact Hid].
Defined.

End LiquidSystemFacts.
